(** * Hybrid retrieval, rank fusion and chunking of the RAG backend

    A shallow embedding of [backend/services/chunking.py],
    [backend/services/qdrant.py] (the filter construction of
    [search_similar]) and [backend/rag.py], followed by the properties the
    specification states about them.

    Conventions of the embedding.
    - Python [int] is [Z]; [len] of a string or list is injected with
      [Z.of_nat].
    - Python [str] is [string]; a character is a code point below 256.
    - Python [float] scores are exact rationals [Q]: the reciprocal-rank
      terms and their sums are computed without rounding.
    - A Python [dict] is an association list in insertion order, which is
      the order [dict.keys()] iterates in.
    - A raised exception is the [Raise] branch of [result]. *)

From Stdlib Require Import List ZArith QArith String Ascii Bool Lia.
From Stdlib Require Import Permutation Sorted DecimalString.
Import ListNotations.

Open Scope string_scope.
Open Scope list_scope.
Open Scope Z_scope.

(* ====================================================================== *)
(** ** Python values: exceptions, dictionaries, slices *)
(* ====================================================================== *)

Module Py.

Inductive exn : Type :=
| ZeroDivisionError
| KeyError (key : string)
| BackendError (what : string).

Inductive result (A : Type) : Type :=
| Ok (a : A)
| Raise (e : exn).

Arguments Ok {A} a.
Arguments Raise {A} e.

Definition bind {A B : Type} (c : result A) (k : A -> result B) : result B :=
  match c with
  | Ok a => k a
  | Raise e => Raise e
  end.

(** [len(x)] of a string and of a list. *)
Definition len (s : string) : Z := Z.of_nat (String.length s).

Definition llen {A : Type} (l : list A) : Z := Z.of_nat (List.length l).

(** [str(n)] and the [{n}] of an f-string, for an [int]. *)
Definition str_of_int (n : Z) : string := NilZero.string_of_int (Z.to_int n).

(** [l[:n]]: a negative bound counts from the end. *)
Definition slice_to {A : Type} (l : list A) (n : Z) : list A :=
  if n <? 0 then firstn (Z.to_nat (llen l + n)) l else firstn (Z.to_nat n) l.

(** A [dict] with [str] keys, in insertion order. *)
Definition dict (V : Type) : Type := list (string * V).

Fixpoint dict_get {V : Type} (d : dict V) (key : string) : option V :=
  match d with
  | [] => None
  | (k, v) :: d' => if String.eqb k key then Some v else dict_get d' key
  end.

(** [d.get(key, default)]. *)
Definition dict_get_default {V : Type} (d : dict V) (key : string) (default : V) : V :=
  match dict_get d key with
  | Some v => v
  | None => default
  end.

(** [key in d]. *)
Definition dict_contains {V : Type} (d : dict V) (key : string) : bool :=
  match dict_get d key with
  | Some _ => true
  | None => false
  end.

(** [d[key]], which raises [KeyError] on a missing key. *)
Definition dict_getitem {V : Type} (d : dict V) (key : string) : result V :=
  match dict_get d key with
  | Some v => Ok v
  | None => Raise (KeyError key)
  end.

(** [d[key] = v]: an existing key keeps its position, a new one goes last. *)
Fixpoint dict_set {V : Type} (d : dict V) (key : string) (v : V) : dict V :=
  match d with
  | [] => [(key, v)]
  | (k, v0) :: d' =>
      if String.eqb k key then (k, v) :: d' else (k, v0) :: dict_set d' key v
  end.

Definition dict_keys {V : Type} (d : dict V) : list string := map fst d.

(** Truthiness of a container: [if d:]. *)
Definition truthy {A : Type} (l : list A) : bool :=
  match l with
  | [] => false
  | _ :: _ => true
  end.

End Py.

Import Py.

Notation "x <- c ;; k" := (bind c (fun x => k))
  (at level 61, c at next level, right associativity).

(* ====================================================================== *)
(** ** backend/services/chunking.py *)
(* ====================================================================== *)

Module Chunking.

(** [str.isspace] on code points below 256; [str.strip], [str.split] and the
    regular expression class [\s] all use it. *)
Definition is_space (c : ascii) : bool :=
  let n := nat_of_ascii c in
  ((9 <=? n)%nat && (n <=? 13)%nat)
  || ((28 <=? n)%nat && (n <=? 32)%nat)
  || (n =? 133)%nat || (n =? 160)%nat.

Fixpoint lstrip (s : string) : string :=
  match s with
  | EmptyString => EmptyString
  | String c s' => if is_space c then lstrip s' else s
  end.

Fixpoint rstrip (s : string) : string :=
  match s with
  | EmptyString => EmptyString
  | String c s' =>
      match rstrip s' with
      | EmptyString => if is_space c then EmptyString else String c EmptyString
      | r => String c r
      end
  end.

(** [text.strip()]. *)
Definition strip (s : string) : string := rstrip (lstrip s).

Definition is_empty (s : string) : bool :=
  match s with
  | EmptyString => true
  | String _ _ => false
  end.

Definition snoc (s : string) (c : ascii) : string :=
  (s ++ String c EmptyString)%string.

(** [text.split()]: the maximal runs of non-whitespace characters. [word] is
    the run being read. *)
Fixpoint split_from (word : string) (s : string) : list string :=
  match s with
  | EmptyString => if is_empty word then [] else [word]
  | String c s' =>
      if is_space c then
        if is_empty word then split_from EmptyString s'
        else word :: split_from EmptyString s'
      else split_from (snoc word c) s'
  end.

Definition split (s : string) : list string := split_from EmptyString s.

(** The characters of the look-behind class [[.!?]]. *)
Definition is_sentence_end (c : ascii) : bool :=
  (Ascii.eqb c "." || Ascii.eqb c "!" || Ascii.eqb c "?")%char.

(** [re.split(r'(?<=[.!?])\s+', text)]. A separator starts at a whitespace
    character that follows one of [.!?] and runs over all the whitespace
    after it. [piece] is the piece being read, [after_end] says the previous
    character was one of [.!?], [in_sep] that a separator is being read. *)
Fixpoint re_split_from (piece : string) (after_end in_sep : bool) (s : string)
  : list string :=
  match s with
  | EmptyString => [piece]
  | String c s' =>
      if is_space c && in_sep then re_split_from piece false true s'
      else if is_space c && after_end then piece :: re_split_from EmptyString false true s'
      else re_split_from (snoc piece c) (is_sentence_end c) false s'
  end.

Definition split_sentences (text : string) : list string :=
  re_split_from EmptyString false false text.

(** [' '.join(units)]. *)
Definition join (units : list string) : string := String.concat " " units.

(** A chunk: [(chunk_text, start_char, end_char)]. *)
Definition Chunk : Type := string * Z * Z.

Section WithTokenizer.

(** [TOKENIZER]: the length of the tiktoken encoding of a text when the
    library is installed, [None] when its import failed. *)
Variable TOKENIZER : option (string -> Z).

Definition count_tokens (text : string) : Z :=
  match TOKENIZER with
  | Some encoded_length => encoded_length text
  | None => (4 * llen (split text)) / 3
  end.

Variable chunk_size : Z.
Variable chunk_overlap : Z.

(** The overlap loops: walk the closed chunk's units backwards and keep
    those that fit the overlap budget, stopping at the first that does not. *)
Fixpoint take_overlap (reversed_units : list string) (overlap_units : list string)
  (overlap_tokens : Z) : list string * Z :=
  match reversed_units with
  | [] => (overlap_units, overlap_tokens)
  | u :: rest =>
      let ut := count_tokens u in
      if overlap_tokens + ut <=? chunk_overlap
      then take_overlap rest (u :: overlap_units) (overlap_tokens + ut)
      else (overlap_units, overlap_tokens)
  end.

(** The loop [for word in words] of the forced split of a long sentence. *)
Fixpoint split_words (char_pos : Z) (words : list string) (chunks : list Chunk)
  (word_chunk : list string) (word_tokens word_start : Z)
  : list Chunk * list string * Z :=
  match words with
  | [] => (chunks, word_chunk, word_start)
  | word :: rest =>
      let word_tok := count_tokens word in
      if (chunk_size <? word_tokens + word_tok) && truthy word_chunk then
        let chunks :=
          chunks ++ [(join word_chunk, word_start, char_pos + len (join word_chunk))] in
        let '(overlap_words, overlap_tokens) := take_overlap (rev word_chunk) [] 0 in
        let word_chunk := overlap_words ++ [word] in
        let word_tokens := overlap_tokens + word_tok in
        let word_start :=
          char_pos + len (join word_chunk) - len (join (overlap_words ++ [word])) in
        split_words char_pos rest chunks word_chunk word_tokens word_start
      else
        split_words char_pos rest chunks (word_chunk ++ [word]) (word_tokens + word_tok)
          word_start
  end.

(** [sum(len(s) + 1 for s in overlap_sentences)]. *)
Definition overlap_chars (overlap_sentences : list string) : Z :=
  fold_right (fun s acc => (len s + 1) + acc) 0 overlap_sentences.

(** The loop [for sentence in sentences], then the flush of the last chunk. *)
Fixpoint chunk_sentences (sentences : list string) (chunks : list Chunk)
  (current_chunk : list string) (current_tokens chunk_start char_pos : Z)
  : list Chunk :=
  match sentences with
  | [] =>
      if truthy current_chunk
      then chunks ++ [(join current_chunk, chunk_start, char_pos)]
      else chunks
  | sentence :: rest =>
      let sentence_tokens := count_tokens sentence in
      if chunk_size <? sentence_tokens then
        let chunks :=
          if truthy current_chunk
          then chunks ++ [(join current_chunk, chunk_start, char_pos)]
          else chunks in
        let '(chunks, word_chunk, word_start) :=
          split_words char_pos (split sentence) chunks [] 0 char_pos in
        let chunks :=
          if truthy word_chunk
          then chunks ++ [(join word_chunk, word_start, char_pos + len sentence)]
          else chunks in
        let char_pos := char_pos + (len sentence + 1) in
        chunk_sentences rest chunks [] 0 char_pos char_pos
      else if (chunk_size <? current_tokens + sentence_tokens) && truthy current_chunk then
        let chunks := chunks ++ [(join current_chunk, chunk_start, char_pos)] in
        let '(overlap_sentences, overlap_tokens) :=
          take_overlap (rev current_chunk) [] 0 in
        chunk_sentences rest chunks (overlap_sentences ++ [sentence])
          (overlap_tokens + sentence_tokens)
          (char_pos - overlap_chars overlap_sentences)
          (char_pos + (len sentence + 1))
      else
        chunk_sentences rest chunks (current_chunk ++ [sentence])
          (current_tokens + sentence_tokens) chunk_start
          (char_pos + (len sentence + 1))
  end.

End WithTokenizer.

Definition chunk_text (TOKENIZER : option (string -> Z)) (text : string)
  (chunk_size chunk_overlap : Z) : list Chunk :=
  let text := strip text in
  if is_empty text then []
  else chunk_sentences TOKENIZER chunk_size chunk_overlap (split_sentences text)
         [] [] 0 0 0.

(** [extract_page_from_position]: the loop over [enumerate(page_breaks)],
    [i] being the index of the head of [page_breaks]. *)
Fixpoint page_scan (char_position : Z) (i : Z) (page_breaks : list Z) : Z :=
  match page_breaks with
  | [] => i + 1
  | break_pos :: rest =>
      if char_position <? break_pos then i + 1
      else page_scan char_position (i + 1) rest
  end.

Definition extract_page_from_position (char_position : Z) (page_breaks : list Z)
  : option Z :=
  if truthy page_breaks then Some (page_scan char_position 0 page_breaks)
  else None.

End Chunking.

(* ====================================================================== *)
(** ** backend/services/qdrant.py: [search_similar] *)
(* ====================================================================== *)

Module Qdrant.

(** The [filters] argument of the search functions: [None] or a dict. *)
Definition Filters : Type := option (dict string).

(** [if filters:] is false for [None] and for the empty dict. *)
Definition filters_given (filters : Filters) : option (dict string) :=
  match filters with
  | Some f => if truthy f then Some f else None
  | None => None
  end.

(** [FieldCondition(key=..., match=MatchValue(value=...))]. *)
Record FieldCondition : Type := {
  key : string;
  match_value : string
}.

(** [Filter(must=conditions)]. *)
Record Filter : Type := { must : list FieldCondition }.

(** The payload stored with a point by [upsert_chunks]; [None] is a missing
    key. *)
Record Payload : Type := {
  payload_text : option string;
  payload_source : option string;
  payload_page : option Z;
  payload_document_id : option string;
  payload_chunk_index : option Z
}.

(** A result of [client.search]. *)
Record ScoredPoint : Type := {
  point_id : string;
  point_score : Q;
  payload : Payload
}.

(** A hit dict as [search_similar] builds it, before a rank is added. *)
Record SearchHit : Type := {
  found_chunk_id : string;
  found_score : Q;
  found_text : string;
  found_source : string;
  found_page : option Z;
  found_document_id : option string;
  found_chunk_index : option Z
}.

(** The conditions [search_similar] appends: one for [source], one for
    [document_id]. *)
Definition conditions_of (f : dict string) : list FieldCondition :=
  let conditions := [] in
  let conditions :=
    match dict_get f "source" with
    | Some v => conditions ++ [{| key := "source"; match_value := v |}]
    | None => conditions
    end in
  let conditions :=
    match dict_get f "document_id" with
    | Some v => conditions ++ [{| key := "document_id"; match_value := v |}]
    | None => conditions
    end in
  conditions.

Definition qdrant_filter (filters : Filters) : option Filter :=
  match filters_given filters with
  | Some f =>
      let conditions := conditions_of f in
      if truthy conditions then Some {| must := conditions |} else None
  | None => None
  end.

Definition or_default {A : Type} (v : option A) (default : A) : A :=
  match v with
  | Some a => a
  | None => default
  end.

Definition hit_of_point (r : ScoredPoint) : SearchHit :=
  {| found_chunk_id := point_id r;
     found_score := point_score r;
     found_text := or_default (payload_text (payload r)) "";
     found_source := or_default (payload_source (payload r)) "";
     found_page := payload_page (payload r);
     found_document_id := payload_document_id (payload r);
     found_chunk_index := payload_chunk_index (payload r) |}.

Section WithClient.

(** [client.search(collection, query_vector, limit, query_filter)] of the
    Qdrant client: an external service, which may raise. *)
Variable client_search : list Q -> Z -> option Filter -> result (list ScoredPoint).

Definition search_similar (query_vector : list Q) (top_k : Z) (filters : Filters)
  : result (list SearchHit) :=
  results <- client_search query_vector top_k (qdrant_filter filters) ;;
  Ok (map hit_of_point results).

End WithClient.

(** What a query filter admits: every [must] condition names a payload field
    whose stored value equals the condition's value. Only the fields
    [upsert_chunks] stores as strings can match. *)
Definition payload_field (p : Payload) (k : string) : option string :=
  if String.eqb k "source" then payload_source p
  else if String.eqb k "document_id" then payload_document_id p
  else if String.eqb k "text" then payload_text p
  else None.

Definition condition_holds (p : Payload) (c : FieldCondition) : bool :=
  match payload_field p (key c) with
  | Some v => String.eqb v (match_value c)
  | None => false
  end.

Definition admits (query_filter : option Filter) (p : Payload) : bool :=
  match query_filter with
  | Some f => forallb (condition_holds p) (must f)
  | None => true
  end.

End Qdrant.

(* ====================================================================== *)
(** ** backend/rag.py *)
(* ====================================================================== *)

Module Rag.

Import Qdrant.

(** A hit with its 1-based rank in its own list. *)
Record RankedHit : Type := {
  hit_chunk_id : string;
  hit_document_id : option string;
  hit_chunk_index : option Z;
  hit_text : string;
  hit_source : string;
  hit_page : option Z;
  hit_score : Q;
  rank : Z;
  search_type : string
}.

(** [enumerate(l)], counting from [i]. *)
Fixpoint enumerate_from {A : Type} (i : Z) (l : list A) : list (Z * A) :=
  match l with
  | [] => []
  | x :: l' => (i, x) :: enumerate_from (i + 1) l'
  end.

Definition enumerate {A : Type} (l : list A) : list (Z * A) := enumerate_from 0 l.

(** The loop of [semantic_search] that adds [rank] and [search_type]. *)
Definition ranked_semantic (entry : Z * SearchHit) : RankedHit :=
  let '(rank0, hit) := entry in
  {| hit_chunk_id := found_chunk_id hit;
     hit_document_id := found_document_id hit;
     hit_chunk_index := found_chunk_index hit;
     hit_text := found_text hit;
     hit_source := found_source hit;
     hit_page := found_page hit;
     hit_score := found_score hit;
     rank := rank0 + 1;
     search_type := "semantic" |}.

(** The columns [keyword_search] filters on. *)
Inductive Column : Type :=
| Document_source
| Document_type
| DocumentChunk_document_id.

(** The statement [keyword_search] builds: the chunks whose [fts_vector]
    matches [plainto_tsquery('english', query)], joined with their document,
    restricted by the [where] clauses (column = value), ordered by
    [rank_score DESC], limited to [limit] rows. *)
Record Select : Type := {
  tsquery : string;
  where_ : list (Column * string);
  limit : Z
}.

Record Row : Type := {
  row_id : string;
  row_document_id : string;
  row_chunk_index : Z;
  row_text : string;
  row_source : option string;
  row_page : option Z;
  rank_score : Q
}.

(** The clauses added under [if filters:]. *)
Definition where_clauses (filters : Filters) : list (Column * string) :=
  match filters_given filters with
  | Some f =>
      let clauses := [] in
      let clauses :=
        match dict_get f "source" with
        | Some v => clauses ++ [(Document_source, v)]
        | None => clauses
        end in
      let clauses :=
        match dict_get f "type" with
        | Some v => clauses ++ [(Document_type, v)]
        | None => clauses
        end in
      let clauses :=
        match dict_get f "document_id" with
        | Some v => clauses ++ [(DocumentChunk_document_id, v)]
        | None => clauses
        end in
      clauses
  | None => []
  end.

(** [row.source or ""]. *)
Definition source_or_empty (s : option string) : string :=
  match s with
  | Some v => v
  | None => ""
  end.

Definition ranked_keyword (entry : Z * Row) : RankedHit :=
  let '(rank0, row) := entry in
  {| hit_chunk_id := row_id row;
     hit_document_id := Some (row_document_id row);
     hit_chunk_index := Some (row_chunk_index row);
     hit_text := row_text row;
     hit_source := source_or_empty (row_source row);
     hit_page := row_page row;
     hit_score := rank_score row;
     rank := rank0 + 1;
     search_type := "keyword" |}.

(** An entry of the [chunks] dict of [rrf_fusion]. *)
Record FusedChunk : Type := {
  chunk_id : string;
  document_id : option string;
  chunk_index : option Z;
  text : string;
  source : string;
  page : option Z;
  semantic_rank : option Z;
  keyword_rank : option Z
}.

(** An entry of the list [rrf_fusion] returns: the chunk with its
    [rrf_score]. *)
Record FusedResult : Type := {
  chunk : FusedChunk;
  rrf_score : Q
}.

(** An entry of the list [hybrid_retrieve] returns: with its [citation]. *)
Record RetrievedChunk : Type := {
  fused : FusedResult;
  citation : string
}.

Definition set_semantic_rank (c : FusedChunk) (r : Z) : FusedChunk :=
  {| chunk_id := chunk_id c; document_id := document_id c;
     chunk_index := chunk_index c; text := text c; source := source c;
     page := page c; semantic_rank := Some r; keyword_rank := keyword_rank c |}.

Definition set_keyword_rank (c : FusedChunk) (r : Z) : FusedChunk :=
  {| chunk_id := chunk_id c; document_id := document_id c;
     chunk_index := chunk_index c; text := text c; source := source c;
     page := page c; semantic_rank := semantic_rank c; keyword_rank := Some r |}.

Definition chunk_of_hit (hit : RankedHit) (semantic keyword : option Z) : FusedChunk :=
  {| chunk_id := hit_chunk_id hit; document_id := hit_document_id hit;
     chunk_index := hit_chunk_index hit; text := hit_text hit;
     source := hit_source hit; page := hit_page hit;
     semantic_rank := semantic; keyword_rank := keyword |}.

(** [1.0 / (k + hit["rank"])]. *)
Definition reciprocal_rank (k : Z) (r : Z) : result Q :=
  if k + r =? 0 then Raise ZeroDivisionError
  else Ok (1 / inject_Z (k + r))%Q.

(** The loop [for hit in semantic_hits]. *)
Fixpoint fuse_semantic (k : Z) (semantic_hits : list RankedHit)
  (scores : dict Q) (chunks : dict FusedChunk) : result (dict Q * dict FusedChunk) :=
  match semantic_hits with
  | [] => Ok (scores, chunks)
  | hit :: rest =>
      let chunk_id := hit_chunk_id hit in
      rrf_score <- reciprocal_rank k (rank hit) ;;
      let scores := dict_set scores chunk_id (dict_get_default scores chunk_id 0 + rrf_score)%Q in
      let chunks :=
        match dict_get chunks chunk_id with
        | None => dict_set chunks chunk_id (chunk_of_hit hit (Some (rank hit)) None)
        | Some c => dict_set chunks chunk_id (set_semantic_rank c (rank hit))
        end in
      fuse_semantic k rest scores chunks
  end.

(** The loop [for hit in keyword_hits]. *)
Fixpoint fuse_keyword (k : Z) (keyword_hits : list RankedHit)
  (scores : dict Q) (chunks : dict FusedChunk) : result (dict Q * dict FusedChunk) :=
  match keyword_hits with
  | [] => Ok (scores, chunks)
  | hit :: rest =>
      let chunk_id := hit_chunk_id hit in
      rrf_score <- reciprocal_rank k (rank hit) ;;
      let scores := dict_set scores chunk_id (dict_get_default scores chunk_id 0 + rrf_score)%Q in
      let chunks :=
        match dict_get chunks chunk_id with
        | None => dict_set chunks chunk_id (chunk_of_hit hit None (Some (rank hit)))
        | Some c => dict_set chunks chunk_id (set_keyword_rank c (rank hit))
        end in
      fuse_keyword k rest scores chunks
  end.

(** [sorted(ids, key=key, reverse=True)]: a stable sort by descending key.
    An id moves behind the ids of strictly greater key only, so ids of equal
    key keep the order they had. *)
Fixpoint insert_desc (key : string -> Q) (x : string) (sorted : list string)
  : list string :=
  match sorted with
  | [] => [x]
  | y :: rest =>
      if Qle_bool (key y) (key x) then x :: sorted
      else y :: insert_desc key x rest
  end.

Definition sorted_desc (key : string -> Q) (ids : list string) : list string :=
  fold_right (insert_desc key) [] ids.

(** The loop [for chunk_id in sorted_ids] that builds [results]. *)
Fixpoint build_results (scores : dict Q) (chunks : dict FusedChunk)
  (sorted_ids : list string) : result (list FusedResult) :=
  match sorted_ids with
  | [] => Ok []
  | chunk_id :: rest =>
      c <- dict_getitem chunks chunk_id ;;
      s <- dict_getitem scores chunk_id ;;
      results <- build_results scores chunks rest ;;
      Ok ({| chunk := c; rrf_score := s |} :: results)
  end.

(** [sorted_ids] is [sorted(scores.keys(), key=lambda x: scores[x],
    reverse=True)]: the key function is applied to keys of [scores] only, so
    the default of the lookup below is never reached. *)
Definition rrf_fusion (semantic_hits keyword_hits : list RankedHit) (k : Z)
  : result (list FusedResult) :=
  st <- fuse_semantic k semantic_hits [] [] ;;
  st <- fuse_keyword k keyword_hits (fst st) (snd st) ;;
  let scores := fst st in
  let chunks := snd st in
  let sorted_ids :=
    sorted_desc (fun x => dict_get_default scores x 0%Q) (dict_keys scores) in
  build_results scores chunks sorted_ids.

(** The citation [hybrid_retrieve] attaches: [if page:] is false for [None]
    and for [0]. *)
Definition format_citation (source : string) (page : option Z) : string :=
  match page with
  | Some p =>
      if p =? 0 then ("[" ++ source ++ "]")%string
      else ("[" ++ source ++ " p." ++ str_of_int p ++ "]")%string
  | None => ("[" ++ source ++ "]")%string
  end.

(** The body of the loop [for result in results]. A fused chunk always has
    the key [source], so [result.get("source", "Unknown")] is its source. *)
Definition enrich (r : FusedResult) : RetrievedChunk :=
  {| fused := r; citation := format_citation (source (chunk r)) (page (chunk r)) |}.

Section WithBackends.

(** The external collaborators: the embedding provider, the Qdrant client
    and the database session. Each call may raise. *)
Variable get_embedding : string -> result (list Q).
Variable client_search : list Q -> Z -> option Filter -> result (list ScoredPoint).
Variable db_execute : Select -> result (list Row).

Definition semantic_search (query : string) (top_k : Z) (filters : Filters)
  : result (list RankedHit) :=
  query_vector <- get_embedding query ;;
  hits <- search_similar client_search query_vector top_k filters ;;
  Ok (map ranked_semantic (enumerate hits)).

Definition keyword_search (query : string) (top_k : Z) (filters : Filters)
  : result (list RankedHit) :=
  let stmt := {| tsquery := query; where_ := where_clauses filters; limit := top_k |} in
  rows <- db_execute stmt ;;
  Ok (map ranked_keyword (enumerate rows)).

Definition hybrid_retrieve (query : string) (top_n semantic_k keyword_k : Z)
  (filters : Filters) : result (list RetrievedChunk) :=
  semantic_hits <- semantic_search query semantic_k filters ;;
  keyword_hits <- keyword_search query keyword_k filters ;;
  fused <- rrf_fusion semantic_hits keyword_hits 60 ;;
  let results := slice_to fused top_n in
  Ok (map enrich results).

End WithBackends.

(** What the statement's [where] clauses admit: a chunk of a document whose
    columns equal the clauses' values. *)
Record Candidate : Type := {
  cand_document_source : string;
  cand_document_type : string;
  cand_document_id : string;
  cand_payload : Payload
}.

Definition column_value (c : Candidate) (col : Column) : string :=
  match col with
  | Document_source => cand_document_source c
  | Document_type => cand_document_type c
  | DocumentChunk_document_id => cand_document_id c
  end.

Definition where_admits (clauses : list (Column * string)) (c : Candidate) : bool :=
  forallb (fun cl => String.eqb (column_value c (fst cl)) (snd cl)) clauses.

End Rag.

(* ====================================================================== *)
(** ** Vocabulary of the properties *)
(* ====================================================================== *)

Import Chunking Qdrant Rag.

(** A text made of whitespace only (the empty text included). *)
Fixpoint whitespace_only (s : string) : bool :=
  match s with
  | EmptyString => true
  | String c s' => is_space c && whitespace_only s'
  end.

(** A character position lies in the range of some chunk. Both ends of a
    range are counted, the most generous reading of [(start, end)]. *)
Definition covered (chunks : list Chunk) (pos : Z) : bool :=
  existsb (fun c => (snd (fst c) <=? pos) && (pos <=? snd c)) chunks.

Definition ids_of (hits : list RankedHit) : list string := map hit_chunk_id hits.

Definition result_id (r : FusedResult) : string := chunk_id (chunk r).

Definition result_ids (results : list FusedResult) : list string :=
  map result_id results.

(** The hit a list holds for a chunk, if any. *)
Definition hit_for (hits : list RankedHit) (id : string) : option RankedHit :=
  find (fun h => String.eqb (hit_chunk_id h) id) hits.

(** What one list contributes to a chunk's fused score: [1/(k + rank)] when
    the list holds the chunk, nothing otherwise. *)
Definition contribution (k : Z) (hits : list RankedHit) (id : string) : Q :=
  match hit_for hits id with
  | Some h => (1 / inject_Z (k + rank h))%Q
  | None => 0%Q
  end.

(** The sum of [1/(k + rank)] over every hit of a list for a chunk. *)
Fixpoint total_contribution (k : Z) (hits : list RankedHit) (id : string) : Q :=
  match hits with
  | [] => 0%Q
  | h :: rest =>
      if String.eqb (hit_chunk_id h) id
      then (1 / inject_Z (k + rank h) + total_contribution k rest id)%Q
      else total_contribution k rest id
  end.



(** The fused score of a chunk in a fusion output. *)
Definition score_of (results : list FusedResult) (id : string) : option Q :=
  option_map rrf_score (find (fun r => String.eqb (result_id r) id) results).

Definition has_rank (c : FusedChunk) : Prop :=
  semantic_rank c <> None \/ keyword_rank c <> None.

(** The two fusion loops are one loop, up to how a chunk is created and how
    the rank of a chunk already met is recorded. *)
Fixpoint fuse_loop (fresh : RankedHit -> FusedChunk) (seen : FusedChunk -> Z -> FusedChunk)
  (k : Z) (hits : list RankedHit) (scores : dict Q) (chunks : dict FusedChunk)
  : result (dict Q * dict FusedChunk) :=
  match hits with
  | [] => Ok (scores, chunks)
  | hit :: rest =>
      rrf_score <- reciprocal_rank k (rank hit) ;;
      fuse_loop fresh seen k rest
        (dict_set scores (hit_chunk_id hit)
           (dict_get_default scores (hit_chunk_id hit) 0 + rrf_score)%Q)
        (match dict_get chunks (hit_chunk_id hit) with
         | None => dict_set chunks (hit_chunk_id hit) (fresh hit)
         | Some c => dict_set chunks (hit_chunk_id hit) (seen c (rank hit))
         end)
  end.

(** What the two dicts of [rrf_fusion] satisfy between hits: the same keys
    in the same order, no key twice, and under each key a chunk with that
    id and at least one rank. *)
Definition fusion_state (scores : dict Q) (chunks : dict FusedChunk) : Prop :=
  dict_keys scores = dict_keys chunks
  /\ NoDup (dict_keys scores)
  /\ (forall id c, dict_get chunks id = Some c -> chunk_id c = id /\ has_rank c).

(** The citation format as the specification words it. *)
Definition spec_citation (source : string) (page : option Z) : string :=
  match page with
  | Some p => ("[" ++ source ++ " p." ++ str_of_int p ++ "]")%string
  | None => ("[" ++ source ++ "]")%string
  end.

(* ====================================================================== *)
(** ** Scenarios: concrete inputs and stand-ins for the external services *)
(* ====================================================================== *)

Module Scenario.

Definition hit (id : string) (r : Z) (kind : string) : RankedHit :=
  {| hit_chunk_id := id; hit_document_id := Some "doc-1"; hit_chunk_index := Some 0;
     hit_text := "Transmission licence conditions."; hit_source := "era - Licence";
     hit_page := Some 3; hit_score := 1%Q; rank := r; search_type := kind |}.

(** The lists of the specification's scenario. *)
Definition dense : list RankedHit :=
  [hit "A" 1 "semantic"; hit "B" 2 "semantic"; hit "C" 3 "semantic"].

Definition sparse : list RankedHit :=
  [hit "B" 1 "keyword"; hit "D" 2 "keyword"].

(** Two lists in which X is first in both and Y first in the dense one. *)
Definition dense_tied : list RankedHit :=
  [hit "X" 1 "semantic"; hit "Y" 1 "semantic"].


Definition point (id : string) (pg : option Z) : ScoredPoint :=
  {| point_id := id; point_score := 1%Q;
     payload := {| payload_text := Some "Grid code, section 4.";
                   payload_source := Some "ERA";
                   payload_page := pg;
                   payload_document_id := Some "doc-1";
                   payload_chunk_index := Some 0 |} |}.

Definition row (id : string) (pg : option Z) : Row :=
  {| row_id := id; row_document_id := "doc-1"; row_chunk_index := 0;
     row_text := "Grid code, section 4."; row_source := Some "ERA";
     row_page := pg; rank_score := 1%Q |}.

Definition embedding_up : string -> result (list Q) := fun _ => Ok [1%Q; 0%Q].

Definition qdrant_up (points : list ScoredPoint)
  : list Q -> Z -> option Filter -> result (list ScoredPoint) :=
  fun _ _ _ => Ok points.

Definition qdrant_down : list Q -> Z -> option Filter -> result (list ScoredPoint) :=
  fun _ _ _ => Raise (BackendError "qdrant: connection refused").

Definition db_up (rows : list Row) : Select -> result (list Row) :=
  fun _ => Ok rows.

Definition db_down : Select -> result (list Row) :=
  fun _ => Raise (BackendError "postgres: connection refused").

(** A filter on the document type alone, and a chunk of a strategy
    document. *)
Definition regulatory_only : Filters := Some [("type", "regulatory")].

Definition strategy_chunk : Candidate :=
  {| cand_document_source := "uetcl"; cand_document_type := "strategy";
     cand_document_id := "doc-7";
     cand_payload := {| payload_text := Some "Five year plan.";
                        payload_source := Some "uetcl - Plan";
                        payload_page := Some 1;
                        payload_document_id := Some "doc-7";
                        payload_chunk_index := Some 0 |} |}.

End Scenario.

(* ====================================================================== *)
(** ** backend/routers/ingest.py: text extraction, page attribution and
       chunk records *)
(* ====================================================================== *)

Module Ingest.

(** What [page.extract_text()] does for one page of [reader.pages] or
    [pdf.pages]: it raises, or it returns a text or [None]. *)
Inductive page_read : Type :=
| PageRaises
| PageText (page_text : option string).

(** What the body of the OCR loop meets for one page number:
    [convert_from_path] or [image_to_string] raises, [images] is empty, or
    [image_to_string] returns a text or [None]. *)
Inductive ocr_read : Type :=
| OcrRaises
| OcrNoImages
| OcrText (page_text : option string).

(** [page_text or ""]. *)
Definition text_or_empty (page_text : option string) : string :=
  match page_text with
  | Some t => t
  | None => ""
  end.

(** The separator ["\n\n"] written after each page. *)
Definition page_separator : string := String "010" (String "010" "").

(** The loop [for page in reader.pages] of the first two attempts, inside
    its [try ... except Exception: pass]: a page that raises ends the loop
    with what was written so far, its break included. *)
Fixpoint read_pages (pages : list page_read) (full_text : string)
  (page_breaks : list Z) : string * list Z :=
  match pages with
  | [] => (full_text, page_breaks)
  | PageRaises :: _ => (full_text, page_breaks ++ [len full_text])
  | PageText page_text :: rest =>
      read_pages rest (full_text ++ (text_or_empty page_text ++ page_separator))
        (page_breaks ++ [len full_text])
  end.

(** One attempt with pypdf or pdfplumber; [None] is a reader that raises
    when the file is opened, which leaves the empty text and no breaks. *)
Definition attempt (reader : option (list page_read)) : string * list Z :=
  match reader with
  | Some pages => read_pages pages "" []
  | None => ("", [])
  end.

(** The loop [for page_num in range(1, num_pages + 1)] of the OCR attempt;
    [None] is an exception, which [extract_pdf_text] turns into a
    [RuntimeError]. *)
Fixpoint ocr_pages (pages : list ocr_read) (full_text : string)
  (page_breaks : list Z) : option (string * list Z) :=
  match pages with
  | [] => Some (full_text, page_breaks)
  | OcrRaises :: _ => None
  | OcrNoImages :: rest => ocr_pages rest full_text (page_breaks ++ [len full_text])
  | OcrText page_text :: rest =>
      ocr_pages rest (full_text ++ (text_or_empty page_text ++ page_separator))
        (page_breaks ++ [len full_text])
  end.

(** [extract_pdf_text(file_path)], over what the three libraries do with
    the file: [pypdf] and [pdfplumber] are the pages the two readers give
    ([None] when opening raises), [ocr] the pages of the OCR attempt
    ([None] when [pdfinfo_from_path] raises). The result [None] is the
    [RuntimeError] of the OCR attempt. *)
Definition extract_pdf_text (pypdf pdfplumber : option (list page_read))
  (ocr : option (list ocr_read)) : option (string * list Z) :=
  let '(full_text, page_breaks) := attempt pypdf in
  let '(full_text, page_breaks) :=
    if len (Chunking.strip full_text) <? 100 then attempt pdfplumber
    else (full_text, page_breaks) in
  if len (Chunking.strip full_text) <? 100 then
    match ocr with
    | Some pages =>
        match ocr_pages pages "" [] with
        | Some (full_text, page_breaks) => Some (Chunking.strip full_text, page_breaks)
        | None => None
        end
    | None => None
    end
  else Some (Chunking.strip full_text, page_breaks).

(** The loop of [determine_page] over [enumerate(page_breaks)]: the index of
    the first break past [char_start], [None] when the loop ends without
    returning. [i] is the index of the head of [page_breaks]. *)
Fixpoint first_break_past (char_start : Z) (i : Z) (page_breaks : list Z) : option Z :=
  match page_breaks with
  | [] => None
  | break_pos :: rest =>
      if char_start <? break_pos then Some i
      else first_break_past char_start (i + 1) rest
  end.

Definition determine_page (char_start : Z) (page_breaks : list Z) : option Z :=
  if truthy page_breaks then
    match first_break_past char_start 0 page_breaks with
    | Some i => Some i
    | None => Some (llen page_breaks)
    end
  else None.

(** A chunk dict of the list [qdrant_chunks]; [None] is a missing key. *)
Record StoredChunk : Type := {
  stored_chunk_id : string;
  stored_document_id : string;
  stored_chunk_index : Z;
  stored_text : string;
  stored_source : option string;
  stored_page : option Z
}.

Section WithIds.

(** [uuid.uuid4()]: the id drawn in iteration [idx]. *)
Variable uuid4 : Z -> string.

(** The body of the loop
    [for idx, (chunk_text_content, char_start, char_end) in enumerate(chunks)]. *)
Definition chunk_record (document_id source_ref : string) (page_breaks : list Z)
  (entry : Z * Chunking.Chunk) : StoredChunk :=
  let '(idx, (chunk_text_content, char_start, char_end)) := entry in
  {| stored_chunk_id := uuid4 idx;
     stored_document_id := document_id;
     stored_chunk_index := idx;
     stored_text := chunk_text_content;
     stored_source := Some source_ref;
     stored_page := determine_page char_start page_breaks |}.

Definition qdrant_chunks (document_id source_ref : string) (page_breaks : list Z)
  (chunks : list Chunking.Chunk) : list StoredChunk :=
  map (chunk_record document_id source_ref page_breaks) (Rag.enumerate chunks).

End WithIds.

End Ingest.

(* ====================================================================== *)
(** ** backend/services/qdrant.py: [upsert_chunks], [ensure_collection] *)
(* ====================================================================== *)

Module QdrantStore.

Import Qdrant Ingest.

(** [PointStruct(id=..., vector=..., payload=...)]. *)
Record PointStruct : Type := {
  struct_id : string;
  struct_vector : list Q;
  struct_payload : Payload
}.

(** The body of the loop [for chunk, embedding in zip(chunks, embeddings)]. *)
Definition point_of (entry : StoredChunk * list Q) : PointStruct :=
  let '(chunk, embedding) := entry in
  {| struct_id := stored_chunk_id chunk;
     struct_vector := embedding;
     struct_payload :=
       {| payload_text := Some (stored_text chunk);
          payload_source := Some (or_default (stored_source chunk) "");
          payload_page := stored_page chunk;
          payload_document_id := Some (stored_document_id chunk);
          payload_chunk_index := Some (stored_chunk_index chunk) |} |}.

Section WithClient.

(** [client.upsert(collection_name, points)]. *)
Variable client_upsert : list PointStruct -> result unit.

Definition upsert_chunks (chunks : list StoredChunk) (embeddings : list (list Q))
  : result unit :=
  client_upsert (map point_of (combine chunks embeddings)).

End WithClient.

(** What a later search reports for a stored point: its id and payload, with
    the similarity [score] of the query. *)
Definition scored (p : PointStruct) (score : Q) : ScoredPoint :=
  {| point_id := struct_id p; point_score := score; payload := struct_payload p |}.

(** The exceptions [ensure_collection] tells apart. *)
Inductive error : Type :=
| UnexpectedResponse
| ResponseHandlingException
| ConnectionError
| OSError
| OtherException.

(** What [ensure_collection] does to the outside, in order. *)
Inductive event : Type :=
| GetCollection
| CreateCollection
| ResetClient
| Sleep.

Inductive outcome : Type :=
| Returned
| Raised (e : error).

Section Startup.

(** What the calls of attempt number [attempt] do: [None] when the call
    returns, [Some e] when it raises [e]. *)
Variable get_collection : Z -> option error.
Variable create_collection : Z -> option error.

(** The body of the outer [try]: [get_collection], and [create_collection]
    when the collection is missing. An exception of [create_collection] is
    raised inside the inner handler and reaches the outer ones. *)
Definition attempt_once (attempt : Z) : list event * option error :=
  match get_collection attempt with
  | None => ([GetCollection], None)
  | Some UnexpectedResponse =>
      ([GetCollection; CreateCollection], create_collection attempt)
  | Some e => ([GetCollection], Some e)
  end.

(** The loop [for attempt in range(1, max_retries + 1)], with [remaining]
    iterations left. Both outer handlers do the same: before the last
    attempt they reset the client and sleep, at the last they re-raise. A
    loop that ends without returning makes the function return [None]. *)
Fixpoint ensure_from (max_retries : Z) (attempt : Z) (remaining : nat)
  : list event * outcome :=
  match remaining with
  | O => ([], Returned)
  | S remaining' =>
      let '(events, failure) := attempt_once attempt in
      match failure with
      | None => (events, Returned)
      | Some e =>
          if attempt <? max_retries then
            let '(later, out) := ensure_from max_retries (attempt + 1) remaining' in
            (events ++ [ResetClient; Sleep] ++ later, out)
          else (events, Raised e)
      end
  end.

Definition ensure_collection (max_retries : Z) : list event * outcome :=
  ensure_from max_retries 1 (Z.to_nat max_retries).

End Startup.

Definition is_event (a b : event) : bool :=
  match a, b with
  | GetCollection, GetCollection => true
  | CreateCollection, CreateCollection => true
  | ResetClient, ResetClient => true
  | Sleep, Sleep => true
  | _, _ => false
  end.

(** How often an event occurs in a trace. *)
Definition times (e : event) (trace : list event) : Z :=
  llen (filter (is_event e) trace).

End QdrantStore.

(* ====================================================================== *)
(** ** backend/agents/base.py: [retrieve_context] *)
(* ====================================================================== *)

Module Agents.

Import Qdrant Rag.

(** What a subclass of [BaseAgent] may override. *)
Record BaseAgent : Type := {
  get_top_n : Z;
  get_retrieval_filters : Filters
}.

(** The defaults of [BaseAgent]. *)
Definition base_agent : BaseAgent :=
  {| get_top_n := 8; get_retrieval_filters := None |}.

(** The loop [for chunk in chunks] that extracts the unique sources. A chunk
    returned by [hybrid_retrieve] has the key [citation], so
    [chunk.get("citation", ...)] is its citation. The set [seen] is a list
    read by membership only. *)
Fixpoint unique_sources (chunks : list RetrievedChunk) (sources seen : list string)
  : list string :=
  match chunks with
  | [] => sources
  | chunk :: rest =>
      let citation := citation chunk in
      if negb (Chunking.is_empty citation) && negb (existsb (String.eqb citation) seen)
      then unique_sources rest (sources ++ [citation]) (citation :: seen)
      else unique_sources rest sources seen
  end.

Section WithBackends.

Variable get_embedding : string -> result (list Q).
Variable client_search : list Q -> Z -> option Filter -> result (list ScoredPoint).
Variable db_execute : Select -> result (list Row).

(** [hybrid_retrieve] is called with its defaults [semantic_k=15] and
    [keyword_k=15]. *)
Definition retrieve_context (self : BaseAgent) (query : string)
  : result (list RetrievedChunk * list string) :=
  chunks <- hybrid_retrieve get_embedding client_search db_execute query
              (get_top_n self) 15 15 (get_retrieval_filters self) ;;
  Ok (chunks, unique_sources chunks [] []).

End WithBackends.

End Agents.

(* ====================================================================== *)
(** ** backend/prompts/builder.py: [_format_citation] *)
(* ====================================================================== *)

Module Prompts.

Import Rag.

(** The keys [_format_citation] reads from a chunk dict; [None] is a missing
    key. *)
Record ChunkDict : Type := {
  dict_citation : option string;
  dict_source : option string;
  dict_title : option string;
  dict_page : option Z
}.

(** [if not citation:] holds for a missing and for an empty citation;
    [if page:] fails for a missing page and for page 0. *)
Definition _format_citation (chunk : ChunkDict) : string :=
  let computed :=
    let source :=
      match dict_source chunk with
      | Some s => s
      | None =>
          match dict_title chunk with
          | Some t => t
          | None => "Unknown Source"
          end
      end in
    match dict_page chunk with
    | Some p =>
        if p =? 0 then ("[" ++ source ++ "]")%string
        else ("[" ++ source ++ " p." ++ str_of_int p ++ "]")%string
    | None => ("[" ++ source ++ "]")%string
    end in
  match dict_citation chunk with
  | Some c => if Chunking.is_empty c then computed else c
  | None => computed
  end.

(** The keys of a chunk returned by [hybrid_retrieve], as the builder reads
    them: it has no [title]. *)
Definition as_dict (r : RetrievedChunk) : ChunkDict :=
  {| dict_citation := Some (citation r);
     dict_source := Some (source (chunk (fused r)));
     dict_title := None;
     dict_page := page (chunk (fused r)) |}.

End Prompts.

(* ====================================================================== *)
(** ** Vocabulary of the further properties *)
(* ====================================================================== *)

Definition start_of (c : Chunking.Chunk) : Z := snd (fst c).

Definition end_of (c : Chunking.Chunk) : Z := snd c.

Definition text_of (c : Chunking.Chunk) : string := fst (fst c).

(** A word: not empty, no whitespace in it. *)
Fixpoint no_space (s : string) : bool :=
  match s with
  | EmptyString => true
  | String c s' => negb (Chunking.is_space c) && no_space s'
  end.

Definition is_word (s : string) : Prop :=
  Chunking.is_empty s = false /\ no_space s = true.

(** The ids of a list in the order of their first occurrence. *)
Definition add_new (seen : list string) (id : string) : list string :=
  if existsb (String.eqb id) seen then seen else seen ++ [id].

Definition first_seen (ids : list string) : list string :=
  fold_left add_new ids [].

(** The order of the fused list: a greater score first. *)
Definition by_score (a b : Rag.FusedResult) : Prop :=
  (Rag.rrf_score b <= Rag.rrf_score a)%Q.

(** The entry [rrf_fusion] builds for a chunk: its fields are those of the
    semantic hit when there is one, of the keyword hit otherwise, and each
    list that holds the chunk gives its rank. *)
Definition fused_chunk_for (semantic_hits keyword_hits : list Rag.RankedHit)
  (id : string) : option Rag.FusedChunk :=
  match hit_for semantic_hits id, hit_for keyword_hits id with
  | Some hs, Some hk =>
      Some (Rag.chunk_of_hit hs (Some (Rag.rank hs)) (Some (Rag.rank hk)))
  | Some hs, None => Some (Rag.chunk_of_hit hs (Some (Rag.rank hs)) None)
  | None, Some hk => Some (Rag.chunk_of_hit hk None (Some (Rag.rank hk)))
  | None, None => None
  end.

(** Chunks collected so far: ranges within bounds, starts in order and none
    past [bound]. *)
Definition collected (chunks : list Chunk) (bound : Z) : Prop :=
  Forall (fun c => 0 <= start_of c <= end_of c) chunks
  /\ StronglySorted (fun a b => start_of a <= start_of b) chunks
  /\ Forall (fun c => start_of c <= bound) chunks.

(** A chunk with a page number from 1 on. *)
Definition has_page (c : Rag.FusedChunk) : Prop :=
  exists n, Rag.page c = Some n /\ 1 <= n.

(** The words of some units, and their tokens as the fallback counts them
    unit by unit. *)
Definition word_total (units : list string) : Z :=
  fold_right (fun u acc => llen (Chunking.split u) + acc) 0 units.

Definition token_total (units : list string) : Z :=
  fold_right (fun u acc => Chunking.count_tokens None u + acc) 0 units.

(** A chunk whose words fit the size and the overlap together. *)
Definition within_budget (chunk_size chunk_overlap : Z) (c : Chunking.Chunk) : Prop :=
  llen (Chunking.split (text_of c)) <= chunk_size + Z.max 0 chunk_overlap.

(** Page breaks written while [full_text] was being built: in ascending
    order, within the text, and starting at 0. *)
Definition page_starts (full_text : string) (page_breaks : list Z) : Prop :=
  StronglySorted Z.le page_breaks
  /\ Forall (fun b => 0 <= b <= len full_text) page_breaks
  /\ (page_breaks = [] -> full_text = ""%string)
  /\ hd 0 page_breaks = 0.

(** The number of entries [l[:n]] keeps of a list of [len] entries. *)
Definition slice_count (len n : Z) : Z :=
  if n <? 0 then Z.max 0 (len + n) else Z.min n len.

(* ====================================================================== *)
(** ** Chunking *)
(* ====================================================================== *)

Section ChunkingFacts.

Lemma lstrip_whitespace_only (s : string) :
  whitespace_only s = true -> lstrip s = EmptyString.
Proof.
  induction s as [|c s IH]; simpl; [reflexivity|].
  intros H. apply andb_true_iff in H. destruct H as [Hc Hs].
  rewrite Hc. auto.
Qed.

(** C9. A text that is empty or made of whitespace only yields no chunk:
    [chunk_text] returns the empty list (the model is a total function, so
    nothing is raised), whatever the tokenizer, chunk size and overlap. *)
Theorem chunk_text_whitespace_only
  (TOKENIZER : option (string -> Z)) (text : string) (chunk_size chunk_overlap : Z) :
  whitespace_only text = true ->
  chunk_text TOKENIZER text chunk_size chunk_overlap = [].
Proof.
  intros H. unfold chunk_text, strip.
  rewrite (lstrip_whitespace_only text H). reflexivity.
Qed.

Lemma chunk_text_whitespace_only_witness :
  whitespace_only (String " " (String "009" (String "010" " "))) = true
  /\ chunk_text None (String " " (String "009" (String "010" " "))) 600 100 = []
  /\ chunk_text None "" 600 100 = [].
Proof.
  split; [reflexivity|]. split.
  - apply (chunk_text_whitespace_only None _ 600 100). reflexivity.
  - apply (chunk_text_whitespace_only None "" 600 100). reflexivity.
Defined.

(** C4. Two sentences separated by four blanks: the only chunk returned is
    [("A. B.", 0, 6)], while the text has 8 characters, so positions 6 and 7
    (7 even when the end of a range is counted in) lie in no chunk. The loop
    advances [char_pos] by [len(sentence) + 1] although the separator the
    regular expression consumed was longer. *)
Theorem chunk_text_gap_after_wide_separator :
  chunk_text None "A.    B." 600 100 = [("A. B.", 0, 6)]
  /\ len (strip "A.    B.") = 8
  /\ covered (chunk_text None "A.    B." 600 100) 7 = false.
Proof. repeat split; vm_compute; reflexivity. Qed.

Lemma llen_cons {A : Type} (x : A) (l : list A) : llen (x :: l) = llen l + 1.
Proof. unfold llen. cbn [List.length]. rewrite Nat2Z.inj_succ. lia. Qed.

Lemma llen_nonneg {A : Type} (l : list A) : 0 <= llen l.
Proof. unfold llen. lia. Qed.

Lemma page_scan_bounds (char_position : Z) (page_breaks : list Z) (i : Z) :
  i + 1 <= page_scan char_position i page_breaks <= i + llen page_breaks + 1.
Proof.
  revert i. induction page_breaks as [|b rest IH]; intros i.
  - simpl. unfold llen. simpl. lia.
  - rewrite llen_cons. cbn [page_scan]. pose proof (llen_nonneg rest).
    destruct (char_position <? b).
    + lia.
    + specialize (IH (i + 1)). lia.
Qed.

Lemma page_scan_first (char_position : Z) (page_breaks : list Z) :
  forall (i : Z) (n : nat) (b : Z),
    nth_error page_breaks n = Some b ->
    char_position < b ->
    (forall m bm, (m < n)%nat -> nth_error page_breaks m = Some bm -> bm <= char_position) ->
    page_scan char_position i page_breaks = i + Z.of_nat n + 1.
Proof.
  induction page_breaks as [|b0 rest IH]; intros i n b Hn Hlt Hbefore.
  - destruct n; discriminate.
  - destruct n as [|n].
    + simpl in Hn. injection Hn as ->. simpl.
      apply Z.ltb_lt in Hlt. rewrite Hlt. lia.
    + cbn [page_scan].
      assert (Hb0 : b0 <= char_position) by (apply (Hbefore 0%nat); [lia | reflexivity]).
      apply Z.ltb_ge in Hb0. rewrite Hb0.
      rewrite (IH (i + 1) n b Hn Hlt).
      * rewrite Nat2Z.inj_succ. lia.
      * intros m bm Hm Hnth. apply (Hbefore (S m)); [lia | exact Hnth].
Qed.

Lemma page_scan_past_all (char_position : Z) (page_breaks : list Z) :
  forall i : Z,
    (forall b, In b page_breaks -> b <= char_position) ->
    page_scan char_position i page_breaks = i + llen page_breaks + 1.
Proof.
  induction page_breaks as [|b0 rest IH]; intros i Hall.
  - simpl. unfold llen. simpl. lia.
  - rewrite llen_cons. cbn [page_scan].
    assert (Hb0 : b0 <= char_position) by (apply Hall; left; reflexivity).
    apply Z.ltb_ge in Hb0. rewrite Hb0.
    rewrite IH by (intros b Hb; apply Hall; right; exact Hb). lia.
Qed.

(** C10. [extract_page_from_position] returns [None] exactly when
    [page_breaks] is empty. Otherwise it returns [i + 1] for the smallest
    index [i] with [char_position < page_breaks[i]], or
    [len(page_breaks) + 1] when the position is at or past every break; the
    page returned is always between 1 and [len(page_breaks) + 1]. *)
Theorem extract_page_from_position_spec (char_position : Z) (page_breaks : list Z) :
  (extract_page_from_position char_position page_breaks = None <-> page_breaks = [])
  /\ (forall (i : nat) (b : Z),
        nth_error page_breaks i = Some b ->
        char_position < b ->
        (forall j bj, (j < i)%nat -> nth_error page_breaks j = Some bj ->
                      bj <= char_position) ->
        extract_page_from_position char_position page_breaks = Some (Z.of_nat i + 1))
  /\ (page_breaks <> [] ->
      (forall b, In b page_breaks -> b <= char_position) ->
      extract_page_from_position char_position page_breaks
      = Some (llen page_breaks + 1))
  /\ (forall p, extract_page_from_position char_position page_breaks = Some p ->
                1 <= p <= llen page_breaks + 1).
Proof.
  unfold extract_page_from_position. repeat split.
  - destruct page_breaks; simpl; [reflexivity | discriminate].
  - intros ->. reflexivity.
  - intros i b Hi Hlt Hbefore.
    destruct page_breaks as [|b0 rest]; [destruct i; discriminate|].
    cbn [truthy]. f_equal.
    rewrite (page_scan_first char_position (b0 :: rest) 0 i b Hi Hlt Hbefore). lia.
  - intros Hne Hall. destruct page_breaks as [|b0 rest]; [contradiction|].
    cbn [truthy]. f_equal.
    rewrite (page_scan_past_all char_position (b0 :: rest) 0 Hall). lia.
  - destruct page_breaks as [|b0 rest]; [discriminate|].
    cbn [truthy] in H.
    assert (Hp : p = page_scan char_position 0 (b0 :: rest)) by congruence.
    pose proof (page_scan_bounds char_position (b0 :: rest) 0). lia.
  - destruct page_breaks as [|b0 rest]; [discriminate|].
    cbn [truthy] in H.
    assert (Hp : p = page_scan char_position 0 (b0 :: rest)) by congruence.
    pose proof (page_scan_bounds char_position (b0 :: rest) 0). lia.
Qed.

Lemma extract_page_from_position_spec_witness :
  extract_page_from_position 5 [0; 10; 20] = Some 2
  /\ extract_page_from_position 25 [0; 10; 20] = Some 4.
Proof.
  destruct (extract_page_from_position_spec 5 [0; 10; 20]) as (_ & Hfirst & _).
  destruct (extract_page_from_position_spec 25 [0; 10; 20]) as (_ & _ & Hpast & _).
  split.
  - apply (Hfirst 1%nat 10); [reflexivity | lia |].
    intros [|[|j]] bj Hj Hnth; [injection Hnth as <-; lia | lia | lia].
  - apply Hpast; [discriminate|].
    intros b [<- | [<- | [<- | []]]]; lia.
Defined.

End ChunkingFacts.

(* ====================================================================== *)
(** ** Dictionaries *)
(* ====================================================================== *)

Section DictFacts.

Context {V : Type}.

Lemma dict_get_set_same (d : dict V) (k : string) (v : V) :
  dict_get (dict_set d k v) k = Some v.
Proof.
  induction d as [|[k0 v0] d IH]; simpl.
  - rewrite String.eqb_refl. reflexivity.
  - destruct (String.eqb k0 k) eqn:E; simpl; rewrite E; auto.
Qed.

Lemma dict_get_set_other (d : dict V) (k k' : string) (v : V) :
  k <> k' -> dict_get (dict_set d k v) k' = dict_get d k'.
Proof.
  intros Hne. induction d as [|[k0 v0] d IH]; simpl.
  - apply String.eqb_neq in Hne. rewrite Hne. reflexivity.
  - destruct (String.eqb k0 k) eqn:E; simpl.
    + apply String.eqb_eq in E. subst k0.
      apply String.eqb_neq in Hne. rewrite Hne. reflexivity.
    + rewrite IH. reflexivity.
Qed.

Lemma dict_get_some_in_keys (d : dict V) (k : string) (v : V) :
  dict_get d k = Some v -> In k (dict_keys d).
Proof.
  induction d as [|[k0 v0] d IH]; simpl; [discriminate|].
  destruct (String.eqb k0 k) eqn:E.
  - apply String.eqb_eq in E. auto.
  - auto.
Qed.

Lemma dict_get_none_not_in_keys (d : dict V) (k : string) :
  dict_get d k = None -> ~ In k (dict_keys d).
Proof.
  induction d as [|[k0 v0] d IH]; simpl; [tauto|].
  destruct (String.eqb k0 k) eqn:E; [discriminate|].
  apply String.eqb_neq in E. intros Hnone [Heq | Hin]; [contradiction|].
  exact (IH Hnone Hin).
Qed.

Lemma dict_in_keys_get (d : dict V) (k : string) :
  In k (dict_keys d) -> exists v, dict_get d k = Some v.
Proof.
  intros Hin. destruct (dict_get d k) eqn:E; [eauto|].
  exfalso. exact (dict_get_none_not_in_keys d k E Hin).
Qed.

Lemma dict_keys_set (d : dict V) (k : string) (v : V) :
  dict_keys (dict_set d k v)
  = if dict_contains d k then dict_keys d else dict_keys d ++ [k].
Proof.
  unfold dict_contains, dict_keys.
  induction d as [|[k0 v0] d IH]; simpl; [reflexivity|].
  destruct (String.eqb k0 k) eqn:E; simpl; [reflexivity|].
  rewrite IH. destruct (dict_get d k); reflexivity.
Qed.

Lemma dict_keys_set_in (d : dict V) (k k' : string) (v : V) :
  In k' (dict_keys (dict_set d k v)) <-> k' = k \/ In k' (dict_keys d).
Proof.
  rewrite dict_keys_set. unfold dict_contains.
  destruct (dict_get d k) eqn:E.
  - split; [auto|]. intros [-> | H]; [|exact H].
    exact (dict_get_some_in_keys d k v0 E).
  - rewrite in_app_iff. simpl. intuition congruence.
Qed.

Lemma dict_keys_set_nodup (d : dict V) (k : string) (v : V) :
  NoDup (dict_keys d) -> NoDup (dict_keys (dict_set d k v)).
Proof.
  intros Hnd. rewrite dict_keys_set. unfold dict_contains.
  destruct (dict_get d k) eqn:E; [exact Hnd|].
  apply NoDup_app; [exact Hnd | repeat constructor; simpl; tauto |].
  intros x Hx [Hk | []]. subst x. exact (dict_get_none_not_in_keys d k E Hx).
Qed.

End DictFacts.

Lemma dict_contains_same_keys {V W : Type} (d1 : dict V) (d2 : dict W) (k : string) :
  dict_keys d1 = dict_keys d2 -> dict_contains d1 k = dict_contains d2 k.
Proof.
  unfold dict_contains, dict_keys. revert d2.
  induction d1 as [|[k1 v1] d1 IH]; intros [|[k2 v2] d2] Hkeys; simpl in *;
    try discriminate; [reflexivity|].
  injection Hkeys as -> Hrest.
  destruct (String.eqb k2 k); [reflexivity | auto].
Qed.

Lemma dict_set_same_keys {V W : Type} (d1 : dict V) (d2 : dict W) (k : string)
  (v : V) (w : W) :
  dict_keys d1 = dict_keys d2 ->
  dict_keys (dict_set d1 k v) = dict_keys (dict_set d2 k w).
Proof.
  intros Hkeys. rewrite !dict_keys_set.
  rewrite (dict_contains_same_keys d1 d2 k Hkeys), Hkeys. reflexivity.
Qed.

(* ====================================================================== *)
(** ** Reciprocal rank fusion *)
(* ====================================================================== *)

Lemma reciprocal_rank_defined (k r : Z) :
  k + r <> 0 -> reciprocal_rank k r = Ok (1 / inject_Z (k + r))%Q.
Proof.
  intros Hne. unfold reciprocal_rank.
  apply Z.eqb_neq in Hne. rewrite Hne. reflexivity.
Qed.

Lemma fusion_state_empty : fusion_state [] [].
Proof.
  repeat split; try constructor; simpl in H; discriminate.
Qed.

Section FuseLoop.

Variable fresh : RankedHit -> FusedChunk.
Variable seen : FusedChunk -> Z -> FusedChunk.

Hypothesis fresh_id : forall h, chunk_id (fresh h) = hit_chunk_id h.
Hypothesis fresh_rank : forall h, has_rank (fresh h).
Hypothesis seen_id : forall c r, chunk_id (seen c r) = chunk_id c.
Hypothesis seen_rank : forall c r, has_rank (seen c r).

(** One hit keeps the two dicts in step. *)
Lemma fuse_step_state (scores : dict Q) (chunks : dict FusedChunk)
  (hit : RankedHit) (s : Q) :
  fusion_state scores chunks ->
  fusion_state
    (dict_set scores (hit_chunk_id hit) s)
    (match dict_get chunks (hit_chunk_id hit) with
     | None => dict_set chunks (hit_chunk_id hit) (fresh hit)
     | Some c => dict_set chunks (hit_chunk_id hit) (seen c (rank hit))
     end).
Proof.
  intros (Hkeys & Hnd & Hchunks).
  set (id := hit_chunk_id hit).
  assert (Hshape : forall c', chunk_id c' = id -> has_rank c' ->
            fusion_state (dict_set scores id s) (dict_set chunks id c')).
  { intros c' Hid Hrk. repeat split.
    - apply dict_set_same_keys. exact Hkeys.
    - apply dict_keys_set_nodup. exact Hnd.
    - destruct (string_dec id id0) as [<- | Hne].
      + rewrite dict_get_set_same in H. injection H as <-. exact Hid.
      + rewrite dict_get_set_other in H by exact Hne. apply (Hchunks id0 c H).
    - destruct (string_dec id id0) as [<- | Hne].
      + rewrite dict_get_set_same in H. injection H as <-. exact Hrk.
      + rewrite dict_get_set_other in H by exact Hne. apply (Hchunks id0 c H). }
  destruct (dict_get chunks id) as [c|] eqn:E.
  - apply Hshape; [|apply seen_rank].
    rewrite seen_id. apply (Hchunks id c E).
  - apply Hshape; [apply fresh_id | apply fresh_rank].
Qed.

Lemma fuse_loop_spec (k : Z) (hits : list RankedHit) :
  forall (scores : dict Q) (chunks : dict FusedChunk),
    Forall (fun h => k + rank h <> 0) hits ->
    fusion_state scores chunks ->
    exists scores' chunks',
      fuse_loop fresh seen k hits scores chunks = Ok (scores', chunks')
      /\ fusion_state scores' chunks'
      /\ (forall id, In id (dict_keys scores')
                     <-> In id (dict_keys scores) \/ In id (ids_of hits))
      /\ (forall id, (dict_get_default scores' id 0
                      == dict_get_default scores id 0 + total_contribution k hits id)%Q).
Proof.
  induction hits as [|hit rest IH]; intros scores chunks Hranks Hstate.
  - exists scores, chunks. simpl.
    split; [reflexivity|]. split; [exact Hstate|]. split.
    + intros id. tauto.
    + intros id. ring.
  - inversion Hranks as [|? ? Hhit Hrest]; subst.
    cbn [fuse_loop]. rewrite (reciprocal_rank_defined k (rank hit) Hhit). cbn [bind].
    set (s := (dict_get_default scores (hit_chunk_id hit) 0
               + 1 / inject_Z (k + rank hit))%Q).
    destruct (IH _ _ Hrest (fuse_step_state scores chunks hit s Hstate))
      as (scores' & chunks' & Hrun & Hstate' & Hkeys' & Hscore').
    exists scores', chunks'. split; [exact Hrun|]. split; [exact Hstate'|]. split.
    + intros id. rewrite Hkeys', dict_keys_set_in. simpl. intuition congruence.
    + intros id. rewrite Hscore'. unfold dict_get_default. cbn [total_contribution].
      destruct (string_dec (hit_chunk_id hit) id) as [<- | Hne].
      * rewrite dict_get_set_same, String.eqb_refl. unfold s, dict_get_default. ring.
      * rewrite dict_get_set_other by exact Hne.
        apply String.eqb_neq in Hne. rewrite Hne. reflexivity.
Qed.

End FuseLoop.

Lemma fuse_semantic_is_loop (k : Z) (hits : list RankedHit) :
  forall scores chunks,
    fuse_semantic k hits scores chunks
    = fuse_loop (fun h => chunk_of_hit h (Some (rank h)) None) set_semantic_rank
        k hits scores chunks.
Proof.
  induction hits as [|hit rest IH]; intros scores chunks; [reflexivity|].
  cbn [fuse_semantic fuse_loop]. destruct (reciprocal_rank k (rank hit)); [|reflexivity].
  cbn [bind]. rewrite IH. destruct (dict_get chunks (hit_chunk_id hit)); reflexivity.
Qed.

Lemma fuse_keyword_is_loop (k : Z) (hits : list RankedHit) :
  forall scores chunks,
    fuse_keyword k hits scores chunks
    = fuse_loop (fun h => chunk_of_hit h None (Some (rank h))) set_keyword_rank
        k hits scores chunks.
Proof.
  induction hits as [|hit rest IH]; intros scores chunks; [reflexivity|].
  cbn [fuse_keyword fuse_loop]. destruct (reciprocal_rank k (rank hit)); [|reflexivity].
  cbn [bind]. rewrite IH. destruct (dict_get chunks (hit_chunk_id hit)); reflexivity.
Qed.

Lemma semantic_rank_set (c : FusedChunk) (r : Z) : has_rank (set_semantic_rank c r).
Proof. left. simpl. discriminate. Qed.

Lemma keyword_rank_set (c : FusedChunk) (r : Z) : has_rank (set_keyword_rank c r).
Proof. right. simpl. discriminate. Qed.

Lemma fuse_semantic_spec (k : Z) (hits : list RankedHit)
  (scores : dict Q) (chunks : dict FusedChunk) :
  Forall (fun h => k + rank h <> 0) hits ->
  fusion_state scores chunks ->
  exists scores' chunks',
    fuse_semantic k hits scores chunks = Ok (scores', chunks')
    /\ fusion_state scores' chunks'
    /\ (forall id, In id (dict_keys scores')
                   <-> In id (dict_keys scores) \/ In id (ids_of hits))
    /\ (forall id, (dict_get_default scores' id 0
                    == dict_get_default scores id 0 + total_contribution k hits id)%Q).
Proof.
  rewrite fuse_semantic_is_loop. apply fuse_loop_spec.
  - reflexivity.
  - intros h. left. simpl. discriminate.
  - reflexivity.
  - apply semantic_rank_set.
Qed.

Lemma fuse_keyword_spec (k : Z) (hits : list RankedHit)
  (scores : dict Q) (chunks : dict FusedChunk) :
  Forall (fun h => k + rank h <> 0) hits ->
  fusion_state scores chunks ->
  exists scores' chunks',
    fuse_keyword k hits scores chunks = Ok (scores', chunks')
    /\ fusion_state scores' chunks'
    /\ (forall id, In id (dict_keys scores')
                   <-> In id (dict_keys scores) \/ In id (ids_of hits))
    /\ (forall id, (dict_get_default scores' id 0
                    == dict_get_default scores id 0 + total_contribution k hits id)%Q).
Proof.
  rewrite fuse_keyword_is_loop. apply fuse_loop_spec.
  - reflexivity.
  - intros h. right. simpl. discriminate.
  - reflexivity.
  - apply keyword_rank_set.
Qed.

Lemma insert_desc_perm (key : string -> Q) (x : string) (sorted : list string) :
  Permutation (insert_desc key x sorted) (x :: sorted).
Proof.
  induction sorted as [|y rest IH]; simpl; [reflexivity|].
  destruct (Qle_bool (key y) (key x)); [reflexivity|].
  rewrite IH. apply perm_swap.
Qed.

Lemma sorted_desc_perm (key : string -> Q) (ids : list string) :
  Permutation (sorted_desc key ids) ids.
Proof.
  induction ids as [|x rest IH]; simpl; [reflexivity|].
  rewrite insert_desc_perm. constructor. exact IH.
Qed.

Lemma build_results_spec (scores : dict Q) (chunks : dict FusedChunk) :
  fusion_state scores chunks ->
  forall ids : list string,
    (forall id, In id ids -> In id (dict_keys scores)) ->
    exists results,
      build_results scores chunks ids = Ok results
      /\ result_ids results = ids
      /\ Forall (fun r => rrf_score r = dict_get_default scores (result_id r) 0%Q
                          /\ has_rank (chunk r)) results.
Proof.
  intros (Hkeys & Hnd & Hchunks) ids.
  induction ids as [|id rest IH]; intros Hin.
  - exists []. repeat split. constructor.
  - destruct IH as (results & Hrun & Hids & Hall).
    { intros id' H. apply Hin. right. exact H. }
    assert (Hid : In id (dict_keys scores)) by (apply Hin; left; reflexivity).
    destruct (dict_in_keys_get scores id Hid) as (s & Hs).
    rewrite Hkeys in Hid.
    destruct (dict_in_keys_get chunks id Hid) as (c & Hc).
    destruct (Hchunks id c Hc) as (Hcid & Hrk).
    exists ({| chunk := c; rrf_score := s |} :: results).
    cbn [build_results]. unfold dict_getitem. rewrite Hc, Hs. cbn [bind].
    rewrite Hrun. cbn [bind]. split; [reflexivity|]. split.
    + unfold result_ids in *. cbn [map]. unfold result_id at 1. cbn [chunk].
      rewrite Hcid, Hids. reflexivity.
    + constructor; [|exact Hall]. unfold result_id. cbn [chunk rrf_score].
      rewrite Hcid. unfold dict_get_default. rewrite Hs. split; [reflexivity | exact Hrk].
Qed.

(** The general form of the fusion invariant: whenever no denominator
    [k + rank] is zero, [rrf_fusion] returns; its output lists every chunk
    id of either list once, and the score of a chunk is the sum of
    [1/(k + rank)] over all the hits that name it. *)
Lemma rrf_fusion_spec (semantic_hits keyword_hits : list RankedHit) (k : Z) :
  Forall (fun h => k + rank h <> 0) semantic_hits ->
  Forall (fun h => k + rank h <> 0) keyword_hits ->
  exists results,
    rrf_fusion semantic_hits keyword_hits k = Ok results
    /\ NoDup (result_ids results)
    /\ (forall id, In id (result_ids results)
                   <-> In id (ids_of semantic_hits) \/ In id (ids_of keyword_hits))
    /\ Forall (fun r =>
                 (rrf_score r == total_contribution k semantic_hits (result_id r)
                                 + total_contribution k keyword_hits (result_id r))%Q
                 /\ has_rank (chunk r)) results.
Proof.
  intros Hsem Hkw. unfold rrf_fusion.
  destruct (fuse_semantic_spec k semantic_hits [] [] Hsem fusion_state_empty)
    as (s1 & c1 & Hrun1 & Hstate1 & Hkeys1 & Hscore1).
  rewrite Hrun1. cbn [bind fst snd].
  destruct (fuse_keyword_spec k keyword_hits s1 c1 Hkw Hstate1)
    as (s2 & c2 & Hrun2 & Hstate2 & Hkeys2 & Hscore2).
  rewrite Hrun2. cbn [bind fst snd].
  set (sorted_ids := sorted_desc (fun x => dict_get_default s2 x 0%Q) (dict_keys s2)).
  assert (Hperm : Permutation sorted_ids (dict_keys s2)) by apply sorted_desc_perm.
  destruct (build_results_spec s2 c2 Hstate2 sorted_ids) as (results & Hrun & Hids & Hall).
  { intros id H. apply (Permutation_in _ Hperm H). }
  exists results. split; [exact Hrun|]. rewrite Hids. split; [|split].
  - apply (Permutation_NoDup (Permutation_sym Hperm)). apply Hstate2.
  - intros id. split.
    + intros H. apply (Permutation_in _ Hperm) in H.
      apply Hkeys2 in H. destruct H as [H | H]; [|right; exact H].
      apply Hkeys1 in H. destruct H as [[] | H]. left; exact H.
    + intros H. apply (Permutation_in _ (Permutation_sym Hperm)).
      apply Hkeys2. destruct H as [H | H]; [left | right; exact H].
      apply Hkeys1. right. exact H.
  - eapply Forall_impl; [|exact Hall]. intros r (Hscore & Hrk). split; [|exact Hrk].
    rewrite Hscore, Hscore2, Hscore1. unfold dict_get_default at 1. simpl. ring.
Qed.

Lemma total_contribution_absent (k : Z) (hits : list RankedHit) (id : string) :
  ~ In id (ids_of hits) -> total_contribution k hits id = 0%Q.
Proof.
  induction hits as [|h rest IH]; simpl; [reflexivity|].
  intros Hnot. destruct (String.eqb (hit_chunk_id h) id) eqn:E.
  - apply String.eqb_eq in E. tauto.
  - apply IH. tauto.
Qed.

Lemma contribution_absent (k : Z) (hits : list RankedHit) (id : string) :
  ~ In id (ids_of hits) -> contribution k hits id = 0%Q.
Proof.
  unfold contribution, hit_for. intros Hnot.
  destruct (find _ hits) as [h|] eqn:E; [|reflexivity].
  apply find_some in E. destruct E as (Hin & Heq).
  apply String.eqb_eq in Heq. exfalso. apply Hnot.
  subst id. apply in_map. exact Hin.
Qed.

(** In a list that names no chunk twice the sum has one term at most. *)
Lemma total_contribution_nodup (k : Z) (hits : list RankedHit) (id : string) :
  NoDup (ids_of hits) ->
  (total_contribution k hits id == contribution k hits id)%Q.
Proof.
  unfold contribution, hit_for.
  induction hits as [|h rest IH]; simpl; intros Hnd; [reflexivity|].
  inversion Hnd as [|? ? Hnot Hrest]; subst.
  destruct (String.eqb (hit_chunk_id h) id) eqn:E.
  - apply String.eqb_eq in E. subst id.
    rewrite (total_contribution_absent k rest _ Hnot). ring.
  - apply IH. exact Hrest.
Qed.



(** The fusion of two lists that name no chunk twice, in the form the
    properties below share. *)
Lemma rrf_fusion_scores (semantic_hits keyword_hits : list RankedHit) (k : Z) :
  NoDup (ids_of semantic_hits) -> NoDup (ids_of keyword_hits) ->
  Forall (fun h => k + rank h <> 0) semantic_hits ->
  Forall (fun h => k + rank h <> 0) keyword_hits ->
  exists results,
    rrf_fusion semantic_hits keyword_hits k = Ok results
    /\ NoDup (result_ids results)
    /\ (forall id, In id (result_ids results)
                   <-> In id (ids_of semantic_hits) \/ In id (ids_of keyword_hits))
    /\ (forall r, In r results ->
          (rrf_score r == contribution k semantic_hits (result_id r)
                          + contribution k keyword_hits (result_id r))%Q).
Proof.
  intros Hsem Hkw Hdsem Hdkw.
  destruct (rrf_fusion_spec semantic_hits keyword_hits k Hdsem Hdkw)
    as (results & Hrun & Hnd & Hids & Hall).
  exists results. split; [exact Hrun|]. split; [exact Hnd|]. split; [exact Hids|].
  intros r Hr. rewrite Forall_forall in Hall. destruct (Hall r Hr) as (Hscore & _).
  rewrite Hscore.
  rewrite (total_contribution_nodup k semantic_hits _ Hsem).
  rewrite (total_contribution_nodup k keyword_hits _ Hkw).
  reflexivity.
Qed.

(** C1. Take two input lists that name no chunk twice and a constant [k]
    for which no denominator [k + rank] is zero (every [k >= 0] with ranks
    from 1, by [rank_list_denominators]). Then [rrf_fusion] returns a list,
    not yet truncated, in which every chunk id of either input list occurs
    exactly once, and every entry is a chunk of an input list whose
    [rrf_score] is the sum of [1/(k + rank)] over the lists that hold it: a
    list that does not hold the chunk contributes 0. *)
Theorem rrf_fusion_complete_and_scored
  (semantic_hits keyword_hits : list RankedHit) (k : Z) :
  NoDup (ids_of semantic_hits) -> NoDup (ids_of keyword_hits) ->
  Forall (fun h => k + rank h <> 0) semantic_hits ->
  Forall (fun h => k + rank h <> 0) keyword_hits ->
  exists results,
    rrf_fusion semantic_hits keyword_hits k = Ok results
    /\ (forall id, In id (ids_of semantic_hits) \/ In id (ids_of keyword_hits) ->
                   count_occ string_dec (result_ids results) id = 1%nat)
    /\ (forall r, In r results ->
          (In (result_id r) (ids_of semantic_hits)
           \/ In (result_id r) (ids_of keyword_hits))
          /\ (rrf_score r == contribution k semantic_hits (result_id r)
                             + contribution k keyword_hits (result_id r))%Q)
    /\ (forall id, ~ In id (ids_of keyword_hits) ->
                   contribution k keyword_hits id = 0%Q)
    /\ (forall id, ~ In id (ids_of semantic_hits) ->
                   contribution k semantic_hits id = 0%Q).
Proof.
  intros Hsem Hkw Hdsem Hdkw.
  destruct (rrf_fusion_scores semantic_hits keyword_hits k Hsem Hkw Hdsem Hdkw)
    as (results & Hrun & Hnd & Hids & Hscores).
  exists results. split; [exact Hrun|]. split; [|split; [|split]].
  - intros id Hin. apply (proj1 (NoDup_count_occ' string_dec _) Hnd).
    apply Hids. exact Hin.
  - intros r Hr. split.
    + apply Hids. unfold result_ids. apply in_map. exact Hr.
    + apply Hscores. exact Hr.
  - intros id. apply contribution_absent.
  - intros id. apply contribution_absent.
Qed.

Lemma rrf_fusion_complete_and_scored_witness :
  exists results,
    rrf_fusion Scenario.dense Scenario.sparse 60 = Ok results
    /\ (forall id, In id (ids_of Scenario.dense) \/ In id (ids_of Scenario.sparse) ->
                   count_occ string_dec (result_ids results) id = 1%nat)
    /\ (forall r, In r results ->
          (In (result_id r) (ids_of Scenario.dense)
           \/ In (result_id r) (ids_of Scenario.sparse))
          /\ (rrf_score r == contribution 60 Scenario.dense (result_id r)
                             + contribution 60 Scenario.sparse (result_id r))%Q)
    /\ (forall id, ~ In id (ids_of Scenario.sparse) ->
                   contribution 60 Scenario.sparse id = 0%Q)
    /\ (forall id, ~ In id (ids_of Scenario.dense) ->
                   contribution 60 Scenario.dense id = 0%Q).
Proof.
  apply (rrf_fusion_complete_and_scored Scenario.dense Scenario.sparse 60).
  - repeat constructor; simpl; intuition discriminate.
  - repeat constructor; simpl; intuition discriminate.
  - repeat constructor; simpl; lia.
  - repeat constructor; simpl; lia.
Defined.

(** C3. The scenario of the specification: dense list A, B, C at ranks 1,
    2, 3, sparse list B, D at ranks 1, 2, [k = 60]. The fused output is in
    the order B, A, D, C with scores 1/62 + 1/61, 1/61, 1/62 and 1/63. *)
Theorem rrf_fusion_scenario :
  exists results,
    rrf_fusion Scenario.dense Scenario.sparse 60 = Ok results
    /\ result_ids results = ["B"; "A"; "D"; "C"]
    /\ Forall2 Qeq (map rrf_score results)
         [(1 # 62) + (1 # 61); 1 # 61; 1 # 62; 1 # 63]%Q.
Proof.
  eexists. split; [vm_compute; reflexivity|]. split; [reflexivity|].
  repeat constructor.
Qed.

Lemma find_result_by_id (results : list FusedResult) (id : string) :
  In id (result_ids results) ->
  exists r, find (fun r => String.eqb (result_id r) id) results = Some r
            /\ In r results /\ result_id r = id.
Proof.
  intros Hin. unfold result_ids in Hin. apply in_map_iff in Hin.
  destruct Hin as (r0 & Hid & Hr0).
  destruct (find (fun r => String.eqb (result_id r) id) results) as [r|] eqn:E.
  - exists r. apply find_some in E. destruct E as (Hr & Heq).
    apply String.eqb_eq in Heq. auto.
  - exfalso. pose proof (find_none _ _ E r0 Hr0) as Hno. simpl in Hno.
    rewrite Hid, String.eqb_refl in Hno. discriminate.
Qed.





(* ====================================================================== *)
(** ** Filters of the two searches *)
(* ====================================================================== *)

(** C6. A filter on the document type alone: [keyword_search] adds the
    clause [Document.type = "regulatory"], [search_similar] builds no
    condition at all and passes no query filter. A chunk of a strategy
    document is therefore admitted to the dense candidates and excluded
    from the sparse ones. *)
Theorem type_filter_restricts_keyword_search_only :
  where_clauses Scenario.regulatory_only = [(Document_type, "regulatory")]
  /\ qdrant_filter Scenario.regulatory_only = None
  /\ where_admits (where_clauses Scenario.regulatory_only) Scenario.strategy_chunk = false
  /\ admits (qdrant_filter Scenario.regulatory_only)
       (cand_payload Scenario.strategy_chunk) = true.
Proof. repeat split. Qed.

(** The [source] key meets the same mismatch from the data side: the clause
    compares the document's source column, the condition the payload's
    [source], which ingestion stores as "{source} - {name}". *)
Lemma source_filter_compares_different_fields :
  where_admits (where_clauses (Some [("source", "uetcl")])) Scenario.strategy_chunk = true
  /\ admits (qdrant_filter (Some [("source", "uetcl")]))
       (cand_payload Scenario.strategy_chunk) = false.
Proof. split; reflexivity. Qed.

(* ====================================================================== *)
(** ** Hybrid retrieval *)
(* ====================================================================== *)

Lemma enumerate_from_nonneg {A : Type} (l : list A) :
  forall i, 0 <= i -> Forall (fun e => 0 <= fst e) (enumerate_from i l).
Proof.
  induction l as [|x l IH]; intros i Hi; simpl; constructor.
  - exact Hi.
  - apply IH. lia.
Qed.

Lemma slice_to_length {A : Type} (l : list A) (n : Z) :
  0 < n -> llen (slice_to l n) <= n.
Proof.
  intros Hn. unfold slice_to, llen.
  destruct (n <? 0) eqn:E; [apply Z.ltb_lt in E; lia|].
  rewrite length_firstn. lia.
Qed.

Lemma llen_map {A B : Type} (f : A -> B) (l : list A) : llen (map f l) = llen l.
Proof. unfold llen. rewrite length_map. reflexivity. Qed.

Lemma firstn_subset {A : Type} (x : A) (n : nat) :
  forall l : list A, In x (firstn n l) -> In x l.
Proof.
  induction n as [|n IH]; intros [|y l]; simpl; try tauto.
  intros [H | H]; [left; exact H | right; exact (IH l H)].
Qed.

Lemma slice_to_incl {A : Type} (l : list A) (n : Z) (x : A) :
  In x (slice_to l n) -> In x l.
Proof.
  unfold slice_to. destruct (n <? 0); apply firstn_subset.
Qed.

(** With the constant 60 of [hybrid_retrieve] and ranks from 1, the fusion
    returns, and each fused chunk has a rank. *)
Lemma rrf_fusion_of_ranked (semantic_hits keyword_hits : list RankedHit) :
  Forall (fun h => 1 <= rank h) semantic_hits ->
  Forall (fun h => 1 <= rank h) keyword_hits ->
  exists results,
    rrf_fusion semantic_hits keyword_hits 60 = Ok results
    /\ Forall (fun r => has_rank (chunk r)) results.
Proof.
  intros Hsem Hkw.
  destruct (rrf_fusion_spec semantic_hits keyword_hits 60)
    as (results & Hrun & _ & _ & Hall).
  - eapply Forall_impl; [|exact Hsem]. cbv beta. intros h Hr. lia.
  - eapply Forall_impl; [|exact Hkw]. cbv beta. intros h Hr. lia.
  - exists results. split; [exact Hrun|].
    eapply Forall_impl; [|exact Hall]. simpl. tauto.
Qed.

Section HybridFacts.

Variable get_embedding : string -> result (list Q).
Variable client_search : list Q -> Z -> option Filter -> result (list ScoredPoint).
Variable db_execute : Select -> result (list Row).

Lemma semantic_search_ranks (query : string) (top_k : Z) (filters : Filters)
  (hits : list RankedHit) :
  semantic_search get_embedding client_search query top_k filters = Ok hits ->
  Forall (fun h => 1 <= rank h) hits.
Proof.
  unfold semantic_search, search_similar.
  destruct (get_embedding query) as [v|e]; cbn [bind]; [|discriminate].
  destruct (client_search v top_k (qdrant_filter filters)) as [points|e];
    cbn [bind]; [|discriminate].
  intros H. injection H as <-.
  apply Forall_map. eapply Forall_impl; [|apply (enumerate_from_nonneg _ 0); lia].
  intros [i hit] Hi. simpl in *. lia.
Qed.

Lemma keyword_search_ranks (query : string) (top_k : Z) (filters : Filters)
  (hits : list RankedHit) :
  keyword_search db_execute query top_k filters = Ok hits ->
  Forall (fun h => 1 <= rank h) hits.
Proof.
  unfold keyword_search.
  destruct (db_execute _) as [rows|e]; cbn [bind]; [|discriminate].
  intros H. injection H as <-.
  apply Forall_map. eapply Forall_impl; [|apply (enumerate_from_nonneg _ 0); lia].
  intros [i row] Hi. simpl in *. lia.
Qed.

(** What a returned list is made of. *)
Lemma hybrid_retrieve_returns (query : string) (top_n semantic_k keyword_k : Z)
  (filters : Filters) (results : list RetrievedChunk) :
  hybrid_retrieve get_embedding client_search db_execute
    query top_n semantic_k keyword_k filters = Ok results ->
  exists semantic_hits keyword_hits fused_results,
    semantic_search get_embedding client_search query semantic_k filters
    = Ok semantic_hits
    /\ keyword_search db_execute query keyword_k filters = Ok keyword_hits
    /\ rrf_fusion semantic_hits keyword_hits 60 = Ok fused_results
    /\ results = map enrich (slice_to fused_results top_n).
Proof.
  unfold hybrid_retrieve.
  destruct (semantic_search _ _ _ _ _) as [sh|e] eqn:Hs; cbn [bind]; [|discriminate].
  destruct (keyword_search _ _ _ _) as [kh|e] eqn:Hk; cbn [bind]; [|discriminate].
  destruct (rrf_fusion sh kh 60) as [f|e] eqn:Hf; cbn [bind]; [|discriminate].
  intros H. injection H as <-. exists sh, kh, f. repeat split; assumption.
Qed.

(** C2, as the code has it. [hybrid_retrieve] catches nothing: an error of
    the dense sub-search is raised to the caller, and so is an error of the
    sparse sub-search when the dense one succeeded; a list is returned
    exactly when both sub-searches succeed. *)
Theorem hybrid_retrieve_propagates_failures
  (query : string) (top_n semantic_k keyword_k : Z) (filters : Filters) :
  (forall e,
      semantic_search get_embedding client_search query semantic_k filters = Raise e ->
      hybrid_retrieve get_embedding client_search db_execute
        query top_n semantic_k keyword_k filters = Raise e)
  /\ (forall semantic_hits e,
        semantic_search get_embedding client_search query semantic_k filters
        = Ok semantic_hits ->
        keyword_search db_execute query keyword_k filters = Raise e ->
        hybrid_retrieve get_embedding client_search db_execute
          query top_n semantic_k keyword_k filters = Raise e)
  /\ ((exists results,
         hybrid_retrieve get_embedding client_search db_execute
           query top_n semantic_k keyword_k filters = Ok results)
      <-> (exists semantic_hits keyword_hits,
             semantic_search get_embedding client_search query semantic_k filters
             = Ok semantic_hits
             /\ keyword_search db_execute query keyword_k filters = Ok keyword_hits)).
Proof.
  split; [|split].
  - intros e Hsem. unfold hybrid_retrieve. rewrite Hsem. reflexivity.
  - intros sh e Hsem Hkw. unfold hybrid_retrieve. rewrite Hsem, Hkw. reflexivity.
  - split.
    + intros (results & Hrun).
      destruct (hybrid_retrieve_returns _ _ _ _ _ _ Hrun) as (sh & kh & f & Hs & Hk & _).
      exists sh, kh. auto.
    + intros (sh & kh & Hs & Hk).
      destruct (rrf_fusion_of_ranked sh kh
                  (semantic_search_ranks _ _ _ _ Hs) (keyword_search_ranks _ _ _ _ Hk))
        as (f & Hf & _).
      exists (map enrich (slice_to f top_n)).
      unfold hybrid_retrieve. rewrite Hs, Hk. cbn [bind]. rewrite Hf. reflexivity.
Qed.

(** C5. When [hybrid_retrieve] is called with [top_n > 0], the list it
    returns has at most [top_n] entries, and each entry has a semantic rank
    or a keyword rank. *)
Theorem hybrid_retrieve_bounded_and_ranked
  (query : string) (top_n semantic_k keyword_k : Z) (filters : Filters)
  (results : list RetrievedChunk) :
  0 < top_n ->
  hybrid_retrieve get_embedding client_search db_execute
    query top_n semantic_k keyword_k filters = Ok results ->
  llen results <= top_n
  /\ Forall (fun r => semantic_rank (chunk (fused r)) <> None
                      \/ keyword_rank (chunk (fused r)) <> None) results.
Proof.
  intros Hn Hrun.
  destruct (hybrid_retrieve_returns _ _ _ _ _ _ Hrun)
    as (sh & kh & f & Hs & Hk & Hf & ->).
  split.
  - rewrite llen_map. apply slice_to_length. exact Hn.
  - destruct (rrf_fusion_of_ranked sh kh
                (semantic_search_ranks _ _ _ _ Hs) (keyword_search_ranks _ _ _ _ Hk))
      as (f' & Hf' & Hall).
    assert (f' = f) by congruence. subst f'.
    apply Forall_map. rewrite Forall_forall in *. intros r Hr.
    apply (Hall r). apply (slice_to_incl _ _ _ Hr).
Qed.

(** C7, as the code has it. An entry returned by [hybrid_retrieve] whose
    page number is present and not 0 is cited as "[{source} p.{page}]"; an
    entry with no page number, or with page number 0, as "[{source}]". *)
Theorem hybrid_retrieve_citation
  (query : string) (top_n semantic_k keyword_k : Z) (filters : Filters)
  (results : list RetrievedChunk) (r : RetrievedChunk) :
  hybrid_retrieve get_embedding client_search db_execute
    query top_n semantic_k keyword_k filters = Ok results ->
  In r results ->
  (forall p, page (chunk (fused r)) = Some p -> p <> 0 ->
             citation r
             = ("[" ++ source (chunk (fused r)) ++ " p." ++ str_of_int p ++ "]")%string)
  /\ (page (chunk (fused r)) = None \/ page (chunk (fused r)) = Some 0 ->
      citation r = ("[" ++ source (chunk (fused r)) ++ "]")%string).
Proof.
  intros Hrun Hr.
  destruct (hybrid_retrieve_returns _ _ _ _ _ _ Hrun) as (sh & kh & f & _ & _ & _ & ->).
  apply in_map_iff in Hr. destruct Hr as (fr & <- & _).
  unfold enrich, format_citation. cbn [fused citation]. split.
  - intros p -> Hp. apply Z.eqb_neq in Hp. rewrite Hp. reflexivity.
  - intros [-> | ->]; reflexivity.
Qed.

End HybridFacts.

(** C2, counterexample. The vector index is down and the database answers
    with one row: the keyword search alone succeeds with a hit, yet
    [hybrid_retrieve] raises the error of the dense search instead of
    returning the keyword results. *)
Lemma dense_failure_is_not_caught :
  (exists hits,
      keyword_search (Scenario.db_up [Scenario.row "c1" (Some 2)]) "grid code" 15 None
      = Ok hits /\ hits <> [])
  /\ (exists e,
        semantic_search Scenario.embedding_up Scenario.qdrant_down "grid code" 15 None
        = Raise e)
  /\ hybrid_retrieve Scenario.embedding_up Scenario.qdrant_down
       (Scenario.db_up [Scenario.row "c1" (Some 2)]) "grid code" 8 15 15 None
     = Raise (BackendError "qdrant: connection refused")
  /\ (forall results,
        hybrid_retrieve Scenario.embedding_up Scenario.qdrant_down
          (Scenario.db_up [Scenario.row "c1" (Some 2)]) "grid code" 8 15 15 None
        <> Ok results).
Proof.
  split; [|split; [|split]].
  - eexists. split; [vm_compute; reflexivity | discriminate].
  - eexists. vm_compute. reflexivity.
  - reflexivity.
  - intros results. vm_compute. discriminate.
Qed.

Lemma hybrid_retrieve_bounded_and_ranked_witness :
  0 < 1
  /\ exists results,
       hybrid_retrieve Scenario.embedding_up
         (Scenario.qdrant_up [Scenario.point "c1" (Some 3); Scenario.point "c2" None])
         (Scenario.db_up [Scenario.row "c2" None; Scenario.row "c3" (Some 1)])
         "grid code" 1 15 15 None = Ok results
       /\ llen results <= 1
       /\ Forall (fun r => semantic_rank (chunk (fused r)) <> None
                           \/ keyword_rank (chunk (fused r)) <> None) results.
Proof.
  split; [lia|]. eexists. split; [vm_compute; reflexivity|].
  apply (hybrid_retrieve_bounded_and_ranked Scenario.embedding_up
           (Scenario.qdrant_up [Scenario.point "c1" (Some 3); Scenario.point "c2" None])
           (Scenario.db_up [Scenario.row "c2" None; Scenario.row "c3" (Some 1)])
           "grid code" 1 15 15 None).
  - lia.
  - vm_compute. reflexivity.
Defined.

(** C7, counterexample. A chunk stored with page number 0: the entry
    returned carries the page number, and its citation is "[ERA]", not the
    "[ERA p.0]" the format with a page number gives. *)
Lemma page_zero_is_cited_without_page :
  exists r,
    hybrid_retrieve Scenario.embedding_up
      (Scenario.qdrant_up [Scenario.point "c1" (Some 0)]) (Scenario.db_up [])
      "grid code" 8 15 15 None = Ok [r]
    /\ page (chunk (fused r)) = Some 0
    /\ source (chunk (fused r)) = "ERA"
    /\ citation r = "[ERA]"
    /\ spec_citation "ERA" (Some 0) = "[ERA p.0]"
    /\ citation r <> spec_citation (source (chunk (fused r))) (page (chunk (fused r))).
Proof.
  eexists. split; [vm_compute; reflexivity|].
  repeat split. vm_compute. discriminate.
Qed.

Lemma hybrid_retrieve_citation_witness :
  exists results r,
    hybrid_retrieve Scenario.embedding_up
      (Scenario.qdrant_up [Scenario.point "c1" (Some 3)])
      (Scenario.db_up [Scenario.row "c2" None])
      "grid code" 8 15 15 None = Ok results
    /\ In r results
    /\ citation r = "[ERA p.3]"
    /\ (forall p, page (chunk (fused r)) = Some p -> p <> 0 ->
                  citation r
                  = ("[" ++ source (chunk (fused r)) ++ " p." ++ str_of_int p ++ "]")%string)
    /\ (page (chunk (fused r)) = None \/ page (chunk (fused r)) = Some 0 ->
        citation r = ("[" ++ source (chunk (fused r)) ++ "]")%string).
Proof.
  eexists. eexists. split; [vm_compute; reflexivity|].
  split; [left; reflexivity|]. split; [reflexivity|].
  eapply (hybrid_retrieve_citation Scenario.embedding_up
            (Scenario.qdrant_up [Scenario.point "c1" (Some 3)])
            (Scenario.db_up [Scenario.row "c2" None])
            "grid code" 8 15 15 None).
  - vm_compute. reflexivity.
  - left. reflexivity.
Defined.

Lemma hybrid_retrieve_propagates_failures_witness :
  hybrid_retrieve Scenario.embedding_up Scenario.qdrant_down
    (Scenario.db_up [Scenario.row "c1" (Some 2)]) "grid code" 8 15 15 None
  = Raise (BackendError "qdrant: connection refused")
  /\ hybrid_retrieve Scenario.embedding_up
       (Scenario.qdrant_up [Scenario.point "c1" (Some 3)]) Scenario.db_down
       "grid code" 8 15 15 None
     = Raise (BackendError "postgres: connection refused").
Proof.
  split.
  - apply (proj1 (hybrid_retrieve_propagates_failures Scenario.embedding_up
                    Scenario.qdrant_down (Scenario.db_up [Scenario.row "c1" (Some 2)])
                    "grid code" 8 15 15 None)).
    reflexivity.
  - eapply (proj1 (proj2 (hybrid_retrieve_propagates_failures Scenario.embedding_up
                    (Scenario.qdrant_up [Scenario.point "c1" (Some 3)]) Scenario.db_down
                    "grid code" 8 15 15 None))).
    + vm_compute. reflexivity.
    + reflexivity.
Defined.

(* ====================================================================== *)
(** ** Further properties of the fusion *)
(* ====================================================================== *)

Section FusionErrors.

Variable fresh : RankedHit -> FusedChunk.
Variable seen : FusedChunk -> Z -> FusedChunk.


Lemma fuse_loop_returns (k : Z) (hits : list RankedHit) :
  forall scores chunks st,
    fuse_loop fresh seen k hits scores chunks = Ok st ->
    Forall (fun h => k + rank h <> 0) hits.
Proof.
  induction hits as [|hit rest IH]; intros scores chunks st Hrun; [constructor|].
  cbn [fuse_loop] in Hrun. unfold reciprocal_rank in Hrun.
  destruct (k + rank hit =? 0) eqn:E; [discriminate|].
  cbn [bind] in Hrun. constructor.
  - apply Z.eqb_neq. exact E.
  - exact (IH _ _ _ Hrun).
Qed.

(** The keys of the score dict after a loop: the keys before, then the new
    ids in the order they are met. *)
Lemma fuse_loop_keys (k : Z) (hits : list RankedHit) :
  forall scores chunks scores' chunks',
    fuse_loop fresh seen k hits scores chunks = Ok (scores', chunks') ->
    dict_keys scores' = fold_left add_new (ids_of hits) (dict_keys scores).
Proof.
  induction hits as [|hit rest IH]; intros scores chunks scores' chunks' Hrun.
  - simpl in Hrun. injection Hrun as <- _. reflexivity.
  - cbn [fuse_loop] in Hrun.
    destruct (reciprocal_rank k (rank hit)) as [s|e]; [|discriminate].
    cbn [bind] in Hrun. rewrite (IH _ _ _ _ Hrun). cbn [ids_of map fold_left].
    f_equal. rewrite dict_keys_set. unfold add_new, dict_contains.
    assert (Hmem : forall (d : dict Q) key,
               existsb (String.eqb key) (dict_keys d)
               = match dict_get d key with Some _ => true | None => false end).
    { intros d key. induction d as [|[k0 v0] d IHd]; simpl; [reflexivity|].
      rewrite String.eqb_sym. destruct (String.eqb k0 key); simpl; auto. }
    rewrite Hmem. reflexivity.
Qed.

(** The chunk dict after a loop over hits that name no chunk twice. *)
Lemma fuse_loop_chunks (k : Z) (hits : list RankedHit) :
  NoDup (ids_of hits) ->
  forall scores chunks scores' chunks',
    fuse_loop fresh seen k hits scores chunks = Ok (scores', chunks') ->
    forall id,
      dict_get chunks' id
      = match hit_for hits id with
        | Some h =>
            Some (match dict_get chunks id with
                  | None => fresh h
                  | Some c => seen c (rank h)
                  end)
        | None => dict_get chunks id
        end.
Proof.
  induction hits as [|hit rest IH]; intros Hnd scores chunks scores' chunks' Hrun id.
  - simpl in Hrun. injection Hrun as _ <-. reflexivity.
  - inversion Hnd as [|? ? Hnot Hrest]; subst.
    cbn [fuse_loop] in Hrun.
    destruct (reciprocal_rank k (rank hit)) as [s|e]; [|discriminate].
    cbn [bind] in Hrun. rewrite (IH Hrest _ _ _ _ Hrun id).
    unfold hit_for. cbn [find].
    destruct (String.eqb (hit_chunk_id hit) id) eqn:E.
    + apply String.eqb_eq in E. subst id.
      assert (Hnone : find (fun h => String.eqb (hit_chunk_id h) (hit_chunk_id hit)) rest
                      = None).
      { destruct (find _ rest) as [h|] eqn:F; [|reflexivity].
        apply find_some in F. destruct F as (Hin & Heq).
        apply String.eqb_eq in Heq. exfalso. apply Hnot. rewrite <- Heq.
        apply in_map. exact Hin. }
      rewrite Hnone.
      destruct (dict_get chunks (hit_chunk_id hit)); apply dict_get_set_same.
    + apply String.eqb_neq in E.
      assert (Hother : forall c0 : dict FusedChunk,
                 c0 = match dict_get chunks (hit_chunk_id hit) with
                      | None => dict_set chunks (hit_chunk_id hit) (fresh hit)
                      | Some c => dict_set chunks (hit_chunk_id hit) (seen c (rank hit))
                      end ->
                 dict_get c0 id = dict_get chunks id).
      { intros c0 ->. destruct (dict_get chunks (hit_chunk_id hit));
          apply dict_get_set_other; exact E. }
      rewrite (Hother _ eq_refl). reflexivity.
Qed.

End FusionErrors.




Lemma build_results_lookups (scores : dict Q) (chunks : dict FusedChunk) :
  forall ids results,
    build_results scores chunks ids = Ok results ->
    Forall2 (fun id r => dict_get chunks id = Some (chunk r)
                         /\ dict_get scores id = Some (rrf_score r)) ids results.
Proof.
  induction ids as [|id rest IH]; intros results Hrun.
  - simpl in Hrun. injection Hrun as <-. constructor.
  - cbn [build_results] in Hrun. unfold dict_getitem in Hrun.
    destruct (dict_get chunks id) as [c|] eqn:Hc; [|discriminate].
    destruct (dict_get scores id) as [s|] eqn:Hs; [|discriminate].
    cbn [bind] in Hrun.
    destruct (build_results scores chunks rest) as [tl|e] eqn:Htl; [|discriminate].
    cbn [bind] in Hrun. injection Hrun as <-.
    constructor; [split; assumption | apply IH; reflexivity].
Qed.

(** What a returned fusion is made of: the two dicts after both loops, the
    ids sorted by their score, and one entry per id built from the dicts. *)
Lemma rrf_fusion_internals (semantic_hits keyword_hits : list RankedHit) (k : Z)
  (results : list FusedResult) :
  rrf_fusion semantic_hits keyword_hits k = Ok results ->
  exists s1 c1 s2 c2,
    fuse_semantic k semantic_hits [] [] = Ok (s1, c1)
    /\ fuse_keyword k keyword_hits s1 c1 = Ok (s2, c2)
    /\ fusion_state s2 c2
    /\ result_ids results
       = sorted_desc (fun x => dict_get_default s2 x 0%Q) (dict_keys s2)
    /\ Forall (fun r => rrf_score r = dict_get_default s2 (result_id r) 0%Q
                        /\ dict_get c2 (result_id r) = Some (chunk r)) results.
Proof.
  intros Hrun. unfold rrf_fusion in Hrun.
  destruct (fuse_semantic k semantic_hits [] []) as [[s1 c1]|e] eqn:H1; [|discriminate].
  cbn [bind fst snd] in Hrun.
  destruct (fuse_keyword k keyword_hits s1 c1) as [[s2 c2]|e] eqn:H2; [|discriminate].
  cbn [bind fst snd] in Hrun.
  exists s1, c1, s2, c2. split; [reflexivity|]. split; [exact H2|].
  assert (Hstate2 : fusion_state s2 c2).
  { pose proof H1 as H1'. rewrite fuse_semantic_is_loop in H1'.
    apply fuse_loop_returns in H1'.
    destruct (fuse_semantic_spec k semantic_hits [] [] H1' fusion_state_empty)
      as (s1' & c1' & Hr1 & Hst1 & _).
    rewrite H1 in Hr1. injection Hr1 as <- <-.
    pose proof H2 as H2'. rewrite fuse_keyword_is_loop in H2'.
    apply fuse_loop_returns in H2'.
    destruct (fuse_keyword_spec k keyword_hits s1 c1 H2' Hst1)
      as (s2' & c2' & Hr2 & Hst2 & _).
    rewrite H2 in Hr2. injection Hr2 as <- <-. exact Hst2. }
  split; [exact Hstate2|].
  set (ids := sorted_desc (fun x => dict_get_default s2 x 0%Q) (dict_keys s2)) in *.
  destruct (build_results_spec s2 c2 Hstate2 ids) as (results' & Hr & Hids & Hall).
  { intros id H. apply (Permutation_in _ (sorted_desc_perm _ _) H). }
  rewrite Hrun in Hr. injection Hr as <-. split; [exact Hids|].
  pose proof (build_results_lookups s2 c2 ids results Hrun) as Hlook.
  rewrite <- Hids in Hlook. clear - Hall Hlook.
  induction results as [|r rest IH]; [constructor|].
  inversion Hall as [|? ? (Hscore & _) Hrest]; subst.
  unfold result_ids in Hlook. cbn [map] in Hlook.
  inversion Hlook as [|? ? ? ? (Hc & _) Htl]; subst.
  constructor; [split; assumption | apply IH; assumption].
Qed.

Lemma insert_desc_sorted (key : string -> Q) (x : string) (sorted : list string) :
  StronglySorted (fun a b => (key b <= key a)%Q) sorted ->
  StronglySorted (fun a b => (key b <= key a)%Q) (insert_desc key x sorted).
Proof.
  induction sorted as [|y rest IH]; intros Hs; simpl.
  - constructor; constructor.
  - inversion Hs as [|? ? Hrest Hy]; subst.
    destruct (Qle_bool (key y) (key x)) eqn:E.
    + apply Qle_bool_iff in E. constructor; [exact Hs|].
      constructor; [exact E|].
      eapply Forall_impl; [|exact Hy]. cbv beta. intros z Hz.
      apply (Qle_trans _ (key y)); assumption.
    + constructor; [apply IH; exact Hrest|].
      assert (Hxy : (key x <= key y)%Q).
      { apply Qlt_le_weak. apply Qnot_le_lt. intros Hle.
        apply Qle_bool_iff in Hle. congruence. }
      apply Forall_forall. intros z Hz.
      apply (Permutation_in _ (insert_desc_perm key x rest)) in Hz.
      destruct Hz as [<- | Hz]; [exact Hxy|].
      rewrite Forall_forall in Hy. exact (Hy z Hz).
Qed.

Lemma sorted_desc_sorted (key : string -> Q) (ids : list string) :
  StronglySorted (fun a b => (key b <= key a)%Q) (sorted_desc key ids).
Proof.
  induction ids as [|x rest IH]; simpl; [constructor|].
  apply insert_desc_sorted. exact IH.
Qed.

Lemma results_sorted_by_score (key : string -> Q) (results : list FusedResult) :
  StronglySorted (fun a b => (key b <= key a)%Q) (result_ids results) ->
  Forall (fun r => rrf_score r = key (result_id r)) results ->
  StronglySorted by_score results.
Proof.
  induction results as [|r rest IH]; intros Hs Hall; [constructor|].
  unfold result_ids in Hs. cbn [map] in Hs.
  inversion Hs as [|? ? Hrest Hr]; subst.
  inversion Hall as [|? ? Hscore Hall']; subst.
  constructor; [apply IH; assumption|].
  rewrite Forall_map in Hr. rewrite Forall_forall in *.
  intros b Hb. unfold by_score. rewrite Hscore, (Hall' b Hb). exact (Hr b Hb).
Qed.

Lemma fused_list_sorted
  (semantic_hits keyword_hits : list RankedHit) (k : Z) (results : list FusedResult) :
  rrf_fusion semantic_hits keyword_hits k = Ok results ->
  StronglySorted by_score results.
Proof.
  intros Hrun.
  destruct (rrf_fusion_internals _ _ _ _ Hrun)
    as (s1 & c1 & s2 & c2 & _ & _ & _ & Hids & Hall).
  apply (results_sorted_by_score (fun x => dict_get_default s2 x 0%Q)).
  - rewrite Hids. apply sorted_desc_sorted.
  - eapply Forall_impl; [|exact Hall]. cbv beta. tauto.
Qed.

(** X2. The list [rrf_fusion] returns is ordered by descending [rrf_score]:
    no entry has a greater score than an entry before it, so the first
    entry has the greatest score of all. *)
Theorem rrf_fusion_sorted_by_score
  (semantic_hits keyword_hits : list RankedHit) (k : Z) (results : list FusedResult) :
  rrf_fusion semantic_hits keyword_hits k = Ok results ->
  StronglySorted by_score results
  /\ (forall best rest r, results = best :: rest -> In r results ->
                          (rrf_score r <= rrf_score best)%Q).
Proof.
  intros Hrun. pose proof (fused_list_sorted _ _ _ _ Hrun) as Hsorted.
  split; [exact Hsorted|].
  intros best rest r -> [<- | Hr]; [apply Qle_refl|].
  inversion Hsorted as [|? ? _ Hbest]; subst.
  rewrite Forall_forall in Hbest. exact (Hbest r Hr).
Qed.

Lemma rrf_fusion_sorted_by_score_witness :
  exists results,
    rrf_fusion Scenario.dense Scenario.sparse 60 = Ok results
    /\ StronglySorted by_score results
    /\ (forall best rest r, results = best :: rest -> In r results ->
                            (rrf_score r <= rrf_score best)%Q).
Proof.
  eexists. split; [vm_compute; reflexivity|].
  apply (rrf_fusion_sorted_by_score Scenario.dense Scenario.sparse 60).
  vm_compute. reflexivity.
Defined.

Lemma insert_desc_same_score (key : string -> Q) (q : Q) (x : string)
  (sorted : list string) :
  filter (fun z => Qeq_bool (key z) q) (insert_desc key x sorted)
  = filter (fun z => Qeq_bool (key z) q) (x :: sorted).
Proof.
  induction sorted as [|y rest IH]; [reflexivity|].
  cbn [insert_desc]. destruct (Qle_bool (key y) (key x)) eqn:E; [reflexivity|].
  cbn [filter] in *. rewrite IH.
  destruct (Qeq_bool (key x) q) eqn:Ex; destruct (Qeq_bool (key y) q) eqn:Ey;
    try reflexivity.
  exfalso. apply Qeq_bool_iff in Ex. apply Qeq_bool_iff in Ey.
  assert (Hle : (key y <= key x)%Q) by (rewrite Ex, Ey; apply Qle_refl).
  apply Qle_bool_iff in Hle. congruence.
Qed.

(** The sort is stable: the ids of one score keep their order. *)
Lemma sorted_desc_same_score (key : string -> Q) (q : Q) (ids : list string) :
  filter (fun z => Qeq_bool (key z) q) (sorted_desc key ids)
  = filter (fun z => Qeq_bool (key z) q) ids.
Proof.
  induction ids as [|x rest IH]; [reflexivity|].
  cbn [sorted_desc fold_right]. rewrite insert_desc_same_score.
  cbn [filter]. fold (sorted_desc key rest). rewrite IH. reflexivity.
Qed.

Lemma rrf_fusion_keys (semantic_hits keyword_hits : list RankedHit) (k : Z)
  (s1 s2 : dict Q) (c1 c2 : dict FusedChunk) :
  fuse_semantic k semantic_hits [] [] = Ok (s1, c1) ->
  fuse_keyword k keyword_hits s1 c1 = Ok (s2, c2) ->
  dict_keys s2 = first_seen (ids_of semantic_hits ++ ids_of keyword_hits).
Proof.
  intros H1 H2. rewrite fuse_semantic_is_loop in H1. rewrite fuse_keyword_is_loop in H2.
  rewrite (fuse_loop_keys _ _ _ _ _ _ _ _ H2), (fuse_loop_keys _ _ _ _ _ _ _ _ H1).
  unfold first_seen. rewrite fold_left_app. reflexivity.
Qed.

Lemma score_of_member (results : list FusedResult) (key : string -> Q) (id : string) :
  Forall (fun r => rrf_score r = key (result_id r)) results ->
  In id (result_ids results) ->
  score_of results id = Some (key id).
Proof.
  intros Hall Hin. destruct (find_result_by_id results id Hin) as (r & Hf & Hr & Hid).
  unfold score_of. rewrite Hf. cbn [option_map].
  rewrite Forall_forall in Hall. rewrite (Hall r Hr), Hid. reflexivity.
Qed.

(** X3. Ties are broken by first appearance: for every score, the entries
    of [rrf_fusion] with that score are in the order in which their chunks
    first occur in [semantic_hits] followed by [keyword_hits]. *)
Theorem rrf_fusion_ties_in_first_seen_order
  (semantic_hits keyword_hits : list RankedHit) (k : Z) (results : list FusedResult)
  (q : Q) :
  rrf_fusion semantic_hits keyword_hits k = Ok results ->
  result_ids (filter (fun r => Qeq_bool (rrf_score r) q) results)
  = filter (fun id => match score_of results id with
                      | Some s => Qeq_bool s q
                      | None => false
                      end)
      (first_seen (ids_of semantic_hits ++ ids_of keyword_hits)).
Proof.
  intros Hrun.
  destruct (rrf_fusion_internals _ _ _ _ Hrun)
    as (s1 & c1 & s2 & c2 & H1 & H2 & _ & Hids & Hall).
  set (key := fun x => dict_get_default s2 x 0%Q) in *.
  assert (Hscores : Forall (fun r => rrf_score r = key (result_id r)) results).
  { eapply Forall_impl; [|exact Hall]. cbv beta. tauto. }
  rewrite <- (rrf_fusion_keys _ _ _ _ _ _ _ H1 H2).
  transitivity (filter (fun z => Qeq_bool (key z) q) (result_ids results)).
  - clear - Hscores. induction results as [|r rest IH]; [reflexivity|].
    inversion Hscores as [|? ? Hr Hrest]; subst.
    unfold result_ids in *. cbn [filter map]. rewrite <- Hr.
    destruct (Qeq_bool (rrf_score r) q); cbn [map]; rewrite (IH Hrest); reflexivity.
  - rewrite Hids, sorted_desc_same_score. apply filter_ext_in.
    intros id Hin.
    rewrite (score_of_member results key id Hscores); [reflexivity|].
    rewrite Hids. apply (Permutation_in _ (Permutation_sym (sorted_desc_perm _ _)) Hin).
Qed.

Lemma rrf_fusion_ties_in_first_seen_order_witness :
  exists results,
    rrf_fusion (Scenario.dense_tied ++ [Scenario.hit "Z" 1 "semantic"]) [] 60 = Ok results
    /\ result_ids results = ["X"; "Y"; "Z"]
    /\ result_ids (filter (fun r => Qeq_bool (rrf_score r) (1 # 61)) results)
       = filter (fun id => match score_of results id with
                           | Some s => Qeq_bool s (1 # 61)
                           | None => false
                           end)
           (first_seen (ids_of (Scenario.dense_tied ++ [Scenario.hit "Z" 1 "semantic"])
                        ++ ids_of [])).
Proof.
  eexists. split; [vm_compute; reflexivity|]. split; [reflexivity|].
  apply (rrf_fusion_ties_in_first_seen_order
           (Scenario.dense_tied ++ [Scenario.hit "Z" 1 "semantic"]) [] 60).
  vm_compute. reflexivity.
Defined.

(** X4. For lists that name no chunk twice, each entry [rrf_fusion] returns
    is the one [fused_chunk_for] describes: its document id, chunk index,
    text, source and page are those of the semantic hit when the chunk is in
    the semantic list and of the keyword hit otherwise, its [semantic_rank]
    is the rank in the semantic list and its [keyword_rank] the rank in the
    keyword list, each [None] exactly when that list does not hold the
    chunk. *)
Theorem rrf_fusion_entries
  (semantic_hits keyword_hits : list RankedHit) (k : Z) (results : list FusedResult)
  (r : FusedResult) :
  NoDup (ids_of semantic_hits) -> NoDup (ids_of keyword_hits) ->
  rrf_fusion semantic_hits keyword_hits k = Ok results ->
  In r results ->
  fused_chunk_for semantic_hits keyword_hits (result_id r) = Some (chunk r)
  /\ semantic_rank (chunk r) = option_map rank (hit_for semantic_hits (result_id r))
  /\ keyword_rank (chunk r) = option_map rank (hit_for keyword_hits (result_id r)).
Proof.
  intros Hsem Hkw Hrun Hr.
  destruct (rrf_fusion_internals _ _ _ _ Hrun)
    as (s1 & c1 & s2 & c2 & H1 & H2 & _ & _ & Hall).
  rewrite Forall_forall in Hall. destruct (Hall r Hr) as (_ & Hc).
  rewrite fuse_semantic_is_loop in H1. rewrite fuse_keyword_is_loop in H2.
  rewrite (fuse_loop_chunks _ _ k keyword_hits Hkw _ _ _ _ H2) in Hc.
  rewrite (fuse_loop_chunks _ _ k semantic_hits Hsem _ _ _ _ H1) in Hc.
  unfold fused_chunk_for. cbn [dict_get] in Hc.
  destruct (hit_for semantic_hits (result_id r)) as [hs|];
    destruct (hit_for keyword_hits (result_id r)) as [hk|];
    try discriminate; injection Hc as <-; repeat split.
Qed.

Lemma rrf_fusion_entries_witness :
  exists results r,
    rrf_fusion Scenario.dense Scenario.sparse 60 = Ok results
    /\ In r results
    /\ result_id r = "B"
    /\ semantic_rank (chunk r) = Some 2
    /\ keyword_rank (chunk r) = Some 1
    /\ fused_chunk_for Scenario.dense Scenario.sparse (result_id r) = Some (chunk r)
    /\ semantic_rank (chunk r) = option_map rank (hit_for Scenario.dense (result_id r))
    /\ keyword_rank (chunk r) = option_map rank (hit_for Scenario.sparse (result_id r)).
Proof.
  eexists. eexists. split; [vm_compute; reflexivity|].
  split; [left; reflexivity|]. split; [reflexivity|].
  split; [reflexivity|]. split; [reflexivity|].
  eapply (rrf_fusion_entries Scenario.dense Scenario.sparse 60).
  - repeat constructor; simpl; intuition discriminate.
  - repeat constructor; simpl; intuition discriminate.
  - vm_compute. reflexivity.
  - left. reflexivity.
Defined.

(* ====================================================================== *)
(** ** Further properties of the searches and of the retrieval *)
(* ====================================================================== *)

Lemma nth_error_enumerate_from {A : Type} (l : list A) :
  forall (i : Z) (n : nat),
    nth_error (enumerate_from i l) n
    = option_map (fun x => (i + Z.of_nat n, x)) (nth_error l n).
Proof.
  induction l as [|x l IH]; intros i [|n]; try reflexivity.
  - simpl. rewrite Z.add_0_r. reflexivity.
  - cbn [enumerate_from nth_error]. rewrite IH.
    destruct (nth_error l n); [|reflexivity]. cbn [option_map].
    rewrite Nat2Z.inj_succ. do 2 f_equal. lia.
Qed.

Lemma length_enumerate_from {A : Type} (l : list A) :
  forall i, List.length (enumerate_from i l) = List.length l.
Proof.
  induction l as [|x l IH]; intros i; simpl; [reflexivity|]. rewrite IH. reflexivity.
Qed.

Section SearchFacts.

Variable get_embedding : string -> result (list Q).
Variable client_search : list Q -> Z -> option Filter -> result (list ScoredPoint).
Variable db_execute : Select -> result (list Row).

(** X5. When [semantic_search] returns, the vector index was asked once,
    with the embedding of the query, the limit [top_k] and the filter built
    from [filters]; the hits are its points in the order it returned them,
    and the hit at position [i] (from 0) has rank [i + 1], the id of the
    point, and the text and source of its payload, or "" for a missing
    one. *)
Theorem semantic_search_ranks_points
  (query : string) (top_k : Z) (filters : Filters) (hits : list RankedHit) :
  semantic_search get_embedding client_search query top_k filters = Ok hits ->
  exists query_vector points,
    get_embedding query = Ok query_vector
    /\ client_search query_vector top_k (qdrant_filter filters) = Ok points
    /\ List.length hits = List.length points
    /\ (forall i p, nth_error points i = Some p ->
          exists h, nth_error hits i = Some h
                    /\ rank h = Z.of_nat i + 1
                    /\ hit_chunk_id h = point_id p
                    /\ hit_text h = or_default (payload_text (payload p)) ""
                    /\ hit_source h = or_default (payload_source (payload p)) ""
                    /\ hit_page h = payload_page (payload p)
                    /\ search_type h = "semantic").
Proof.
  unfold semantic_search, search_similar.
  destruct (get_embedding query) as [v|e]; cbn [bind]; [|discriminate].
  destruct (client_search v top_k (qdrant_filter filters)) as [points|e] eqn:Hs;
    cbn [bind]; [|discriminate].
  intros H. injection H as <-. exists v, points.
  split; [reflexivity|]. split; [exact Hs|]. split.
  - rewrite length_map. unfold enumerate.
    rewrite length_enumerate_from, length_map. reflexivity.
  - intros i p Hp. unfold enumerate.
    rewrite nth_error_map, nth_error_enumerate_from, nth_error_map, Hp.
    cbn [option_map]. eexists. split; [reflexivity|].
    cbn [ranked_semantic rank hit_chunk_id hit_text hit_source hit_page search_type
         hit_of_point found_chunk_id found_text found_source found_page].
    repeat split; lia.
Qed.

(** X6. When [keyword_search] returns, the database was asked once, for the
    statement with the query as [tsquery], the clauses built from [filters]
    and the limit [top_k]; the hits are its rows in order, and the hit at
    position [i] (from 0) has rank [i + 1], the id, text and page of the
    row, and its source, or "" for a null one. *)
Theorem keyword_search_ranks_rows
  (query : string) (top_k : Z) (filters : Filters) (hits : list RankedHit) :
  keyword_search db_execute query top_k filters = Ok hits ->
  exists rows,
    db_execute {| tsquery := query; where_ := where_clauses filters; limit := top_k |}
    = Ok rows
    /\ List.length hits = List.length rows
    /\ (forall i row, nth_error rows i = Some row ->
          exists h, nth_error hits i = Some h
                    /\ rank h = Z.of_nat i + 1
                    /\ hit_chunk_id h = row_id row
                    /\ hit_text h = row_text row
                    /\ hit_source h = source_or_empty (row_source row)
                    /\ hit_page h = row_page row
                    /\ search_type h = "keyword").
Proof.
  unfold keyword_search.
  destruct (db_execute _) as [rows|e] eqn:Hs; cbn [bind]; [|discriminate].
  intros H. injection H as <-. exists rows.
  split; [reflexivity|]. split.
  - rewrite length_map. unfold enumerate. apply length_enumerate_from.
  - intros i row Hrow. unfold enumerate.
    rewrite nth_error_map, nth_error_enumerate_from, Hrow.
    cbn [option_map]. eexists. split; [reflexivity|].
    cbn [ranked_keyword rank hit_chunk_id hit_text hit_source hit_page search_type].
    repeat split; lia.
Qed.

End SearchFacts.

Lemma semantic_search_ranks_points_witness :
  exists hits query_vector points,
    semantic_search Scenario.embedding_up
      (Scenario.qdrant_up [Scenario.point "c1" (Some 3); Scenario.point "c2" None])
      "grid code" 15 None = Ok hits
    /\ map rank hits = [1; 2]
    /\ Scenario.embedding_up "grid code" = Ok query_vector
    /\ Scenario.qdrant_up [Scenario.point "c1" (Some 3); Scenario.point "c2" None]
         query_vector 15 (qdrant_filter None) = Ok points
    /\ List.length hits = List.length points
    /\ (forall i p, nth_error points i = Some p ->
          exists h, nth_error hits i = Some h
                    /\ rank h = Z.of_nat i + 1
                    /\ hit_chunk_id h = point_id p
                    /\ hit_text h = or_default (payload_text (payload p)) ""
                    /\ hit_source h = or_default (payload_source (payload p)) ""
                    /\ hit_page h = payload_page (payload p)
                    /\ search_type h = "semantic").
Proof.
  eexists.
  assert (Hrun : semantic_search Scenario.embedding_up
            (Scenario.qdrant_up [Scenario.point "c1" (Some 3); Scenario.point "c2" None])
            "grid code" 15 None
          = Ok (map ranked_semantic
                  (enumerate (map hit_of_point
                     [Scenario.point "c1" (Some 3); Scenario.point "c2" None]))))
    by reflexivity.
  destruct (semantic_search_ranks_points _ _ _ _ _ _ Hrun) as (v & points & H).
  exists v, points. split; [exact Hrun|]. split; [reflexivity | exact H].
Defined.

Lemma keyword_search_ranks_rows_witness :
  exists hits rows,
    keyword_search (Scenario.db_up [Scenario.row "c2" None; Scenario.row "c3" (Some 1)])
      "grid code" 15 None = Ok hits
    /\ map rank hits = [1; 2]
    /\ Scenario.db_up [Scenario.row "c2" None; Scenario.row "c3" (Some 1)]
         {| tsquery := "grid code"; where_ := where_clauses None; limit := 15 |}
       = Ok rows
    /\ List.length hits = List.length rows
    /\ (forall i row, nth_error rows i = Some row ->
          exists h, nth_error hits i = Some h
                    /\ rank h = Z.of_nat i + 1
                    /\ hit_chunk_id h = row_id row
                    /\ hit_text h = row_text row
                    /\ hit_source h = source_or_empty (row_source row)
                    /\ hit_page h = row_page row
                    /\ search_type h = "keyword").
Proof.
  eexists.
  assert (Hrun : keyword_search
            (Scenario.db_up [Scenario.row "c2" None; Scenario.row "c3" (Some 1)])
            "grid code" 15 None
          = Ok (map ranked_keyword
                  (enumerate [Scenario.row "c2" None; Scenario.row "c3" (Some 1)])))
    by reflexivity.
  destruct (keyword_search_ranks_rows _ _ _ _ _ Hrun) as (rows & H).
  exists rows. split; [exact Hrun|]. split; [reflexivity | exact H].
Defined.

Lemma slice_to_firstn {A : Type} (l : list A) (n : Z) :
  slice_to l n = firstn (Z.to_nat (slice_count (llen l) n)) l.
Proof.
  unfold slice_to, slice_count, llen. destruct (n <? 0) eqn:E.
  - f_equal. lia.
  - apply Z.ltb_ge in E.
    destruct (Z_le_gt_dec n (Z.of_nat (List.length l))) as [Hle | Hgt].
    + rewrite Z.min_l by exact Hle. reflexivity.
    + rewrite Z.min_r by lia. rewrite Nat2Z.id, firstn_all.
      apply firstn_all2. lia.
Qed.

Lemma slice_to_llen {A : Type} (l : list A) (n : Z) :
  llen (slice_to l n) = slice_count (llen l) n.
Proof.
  rewrite slice_to_firstn. unfold llen at 1. rewrite length_firstn.
  unfold slice_count, llen.
  destruct (n <? 0) eqn:E; [apply Z.ltb_lt in E | apply Z.ltb_ge in E]; lia.
Qed.

Lemma strongly_sorted_app {A : Type} (R : A -> A -> Prop) (l1 l2 : list A) :
  StronglySorted R (l1 ++ l2) ->
  StronglySorted R l1 /\ (forall x y, In x l1 -> In y l2 -> R x y).
Proof.
  induction l1 as [|a l1 IH]; intros Hs.
  - split; [constructor | intros x y []].
  - simpl in Hs. inversion Hs as [|? ? Hrest Ha]; subst.
    destruct (IH Hrest) as (Hs1 & Hcross). split.
    + constructor; [exact Hs1|]. apply Forall_app in Ha. tauto.
    + intros x y [<- | Hx] Hy.
      * rewrite Forall_forall in Ha. apply Ha. apply in_or_app. right. exact Hy.
      * exact (Hcross x y Hx Hy).
Qed.

Lemma map_fused_enrich (l : list FusedResult) : map fused (map enrich l) = l.
Proof.
  induction l as [|r l IH]; simpl; [reflexivity|]. rewrite IH. reflexivity.
Qed.

Section RetrievalFacts.

Variable get_embedding : string -> result (list Q).
Variable client_search : list Q -> Z -> option Filter -> result (list ScoredPoint).
Variable db_execute : Select -> result (list Row).

(** X7. The number of entries [hybrid_retrieve] returns, for any [top_n]:
    with [n] distinct chunk ids in the two hit lists it is [min(top_n, n)]
    for [top_n >= 0], so 0 for [top_n = 0], and [max(0, n + top_n)] for a
    negative [top_n], which drops the last [-top_n] entries as a Python
    slice does. *)
Theorem hybrid_retrieve_count
  (query : string) (top_n semantic_k keyword_k : Z) (filters : Filters)
  (results : list RetrievedChunk) :
  hybrid_retrieve get_embedding client_search db_execute
    query top_n semantic_k keyword_k filters = Ok results ->
  exists semantic_hits keyword_hits,
    semantic_search get_embedding client_search query semantic_k filters
    = Ok semantic_hits
    /\ keyword_search db_execute query keyword_k filters = Ok keyword_hits
    /\ llen results
       = slice_count
           (llen (first_seen (ids_of semantic_hits ++ ids_of keyword_hits))) top_n.
Proof.
  intros Hrun.
  destruct (hybrid_retrieve_returns _ _ _ _ _ _ _ _ _ Hrun)
    as (sh & kh & f & Hs & Hk & Hf & ->).
  exists sh, kh. split; [exact Hs|]. split; [exact Hk|].
  rewrite llen_map, slice_to_llen. f_equal.
  destruct (rrf_fusion_internals _ _ _ _ Hf)
    as (s1 & c1 & s2 & c2 & H1 & H2 & _ & Hids & _).
  rewrite <- (rrf_fusion_keys _ _ _ _ _ _ _ H1 H2).
  unfold llen. f_equal.
  rewrite <- (Permutation_length (sorted_desc_perm (fun x => dict_get_default s2 x 0%Q)
                                    (dict_keys s2))).
  rewrite <- Hids. unfold result_ids. rewrite length_map. reflexivity.
Qed.

(** X8. What [hybrid_retrieve] returns is the head of the fused ranking:
    the fused list is the returned entries followed by the dropped ones, the
    returned entries are in descending order of [rrf_score], and no dropped
    entry has a greater score than a returned one. *)
Theorem hybrid_retrieve_keeps_the_best
  (query : string) (top_n semantic_k keyword_k : Z) (filters : Filters)
  (results : list RetrievedChunk) :
  hybrid_retrieve get_embedding client_search db_execute
    query top_n semantic_k keyword_k filters = Ok results ->
  exists semantic_hits keyword_hits dropped,
    semantic_search get_embedding client_search query semantic_k filters
    = Ok semantic_hits
    /\ keyword_search db_execute query keyword_k filters = Ok keyword_hits
    /\ rrf_fusion semantic_hits keyword_hits 60 = Ok (map fused results ++ dropped)
    /\ StronglySorted by_score (map fused results)
    /\ (forall r d, In r results -> In d dropped ->
                    (rrf_score d <= rrf_score (fused r))%Q).
Proof.
  intros Hrun.
  destruct (hybrid_retrieve_returns _ _ _ _ _ _ _ _ _ Hrun)
    as (sh & kh & f & Hs & Hk & Hf & ->).
  rewrite slice_to_firstn. set (m := Z.to_nat (slice_count (llen f) top_n)).
  exists sh, kh, (skipn m f). split; [exact Hs|]. split; [exact Hk|].
  rewrite map_fused_enrich, firstn_skipn. split; [exact Hf|].
  pose proof (fused_list_sorted sh kh 60 f Hf) as Hsorted.
  rewrite <- (firstn_skipn m f) in Hsorted.
  destruct (strongly_sorted_app _ _ _ Hsorted) as (Hhead & Hcross).
  split; [exact Hhead|].
  intros r d Hr Hd. apply (Hcross (fused r) d); [|exact Hd].
  apply in_map_iff in Hr. destruct Hr as (x & <- & Hx). exact Hx.
Qed.

End RetrievalFacts.

Lemma hybrid_retrieve_count_witness :
  exists results,
    hybrid_retrieve Scenario.embedding_up
      (Scenario.qdrant_up [Scenario.point "c1" (Some 3); Scenario.point "c2" None])
      (Scenario.db_up [Scenario.row "c2" None; Scenario.row "c3" (Some 1)])
      "grid code" (-1) 15 15 None = Ok results
    /\ llen results = 2
    /\ exists semantic_hits keyword_hits,
         semantic_search Scenario.embedding_up
           (Scenario.qdrant_up [Scenario.point "c1" (Some 3); Scenario.point "c2" None])
           "grid code" 15 None = Ok semantic_hits
         /\ keyword_search
              (Scenario.db_up [Scenario.row "c2" None; Scenario.row "c3" (Some 1)])
              "grid code" 15 None = Ok keyword_hits
         /\ llen results
            = slice_count
                (llen (first_seen (ids_of semantic_hits ++ ids_of keyword_hits))) (-1).
Proof.
  eexists. split; [vm_compute; reflexivity|]. split; [reflexivity|].
  apply (hybrid_retrieve_count Scenario.embedding_up
           (Scenario.qdrant_up [Scenario.point "c1" (Some 3); Scenario.point "c2" None])
           (Scenario.db_up [Scenario.row "c2" None; Scenario.row "c3" (Some 1)])
           "grid code" (-1) 15 15 None).
  vm_compute. reflexivity.
Defined.

Lemma hybrid_retrieve_keeps_the_best_witness :
  exists results,
    hybrid_retrieve Scenario.embedding_up
      (Scenario.qdrant_up [Scenario.point "c1" (Some 3); Scenario.point "c2" None])
      (Scenario.db_up [Scenario.row "c2" None; Scenario.row "c3" (Some 1)])
      "grid code" 1 15 15 None = Ok results
    /\ map (fun r => chunk_id (chunk (fused r))) results = ["c2"]
    /\ exists semantic_hits keyword_hits dropped,
         semantic_search Scenario.embedding_up
           (Scenario.qdrant_up [Scenario.point "c1" (Some 3); Scenario.point "c2" None])
           "grid code" 15 None = Ok semantic_hits
         /\ keyword_search
              (Scenario.db_up [Scenario.row "c2" None; Scenario.row "c3" (Some 1)])
              "grid code" 15 None = Ok keyword_hits
         /\ rrf_fusion semantic_hits keyword_hits 60 = Ok (map fused results ++ dropped)
         /\ StronglySorted by_score (map fused results)
         /\ (forall r d, In r results -> In d dropped ->
                         (rrf_score d <= rrf_score (fused r))%Q).
Proof.
  eexists. split; [vm_compute; reflexivity|]. split; [reflexivity|].
  apply (hybrid_retrieve_keeps_the_best Scenario.embedding_up
           (Scenario.qdrant_up [Scenario.point "c1" (Some 3); Scenario.point "c2" None])
           (Scenario.db_up [Scenario.row "c2" None; Scenario.row "c3" (Some 1)])
           "grid code" 1 15 15 None).
  vm_compute. reflexivity.
Defined.

Lemma filters_given_some (f : dict string) (key v : string) :
  dict_get f key = Some v -> filters_given (Some f) = Some f.
Proof.
  intros H. destruct f as [|entry f]; [discriminate | reflexivity].
Qed.

Lemma condition_on_document_id (p : Payload) (v : string) :
  condition_holds p {| key := "document_id"; match_value := v |} = true ->
  payload_document_id p = Some v.
Proof.
  unfold condition_holds, payload_field. simpl.
  destruct (payload_document_id p); [|discriminate].
  intros H. apply String.eqb_eq in H. congruence.
Qed.

Lemma condition_on_source (p : Payload) (v : string) :
  condition_holds p {| key := "source"; match_value := v |} = true ->
  payload_source p = Some v.
Proof.
  unfold condition_holds, payload_field. simpl.
  destruct (payload_source p); [|discriminate].
  intros H. apply String.eqb_eq in H. congruence.
Qed.

(** X9. The keys [document_id] and [source] of a filter reach both
    searches: with [document_id = v] every row the statement of
    [keyword_search] admits is a chunk of document [v] and every point the
    query filter of [search_similar] admits has [v] as the [document_id] of
    its payload; with [source = v] the statement admits only documents whose
    source column is [v] and the query filter only payloads whose [source]
    is [v]. *)
Theorem document_and_source_filters_reach_both_searches
  (f : dict string) (v : string) (c : Candidate) (p : Payload) :
  (dict_get f "document_id" = Some v ->
   (where_admits (where_clauses (Some f)) c = true -> cand_document_id c = v)
   /\ (admits (qdrant_filter (Some f)) p = true -> payload_document_id p = Some v))
  /\ (dict_get f "source" = Some v ->
      (where_admits (where_clauses (Some f)) c = true -> cand_document_source c = v)
      /\ (admits (qdrant_filter (Some f)) p = true -> payload_source p = Some v)).
Proof.
  split; intros Hkey.
  - unfold where_admits, where_clauses, admits, qdrant_filter, conditions_of.
    rewrite (filters_given_some f _ _ Hkey), Hkey. split.
    + destruct (dict_get f "source"); destruct (dict_get f "type");
        cbn [app forallb fst snd column_value];
        rewrite ?andb_true_iff; intros H; decompose [and] H;
        apply String.eqb_eq; assumption.
    + destruct (dict_get f "source"); cbn [app truthy must forallb];
        rewrite ?andb_true_iff; intros H; decompose [and] H;
        apply condition_on_document_id; assumption.
  - unfold where_admits, where_clauses, admits, qdrant_filter, conditions_of.
    rewrite (filters_given_some f _ _ Hkey), Hkey. split.
    + destruct (dict_get f "type"); destruct (dict_get f "document_id");
        cbn [app forallb fst snd column_value];
        rewrite ?andb_true_iff; intros H; decompose [and] H;
        apply String.eqb_eq; assumption.
    + destruct (dict_get f "document_id"); cbn [app truthy must forallb];
        rewrite ?andb_true_iff; intros H; decompose [and] H;
        apply condition_on_source; assumption.
Qed.

Lemma document_and_source_filters_reach_both_searches_witness :
  (where_admits (where_clauses (Some [("document_id", "doc-7")])) Scenario.strategy_chunk
   = true -> cand_document_id Scenario.strategy_chunk = "doc-7")
  /\ (admits (qdrant_filter (Some [("document_id", "doc-7")]))
        (cand_payload Scenario.strategy_chunk) = true ->
      payload_document_id (cand_payload Scenario.strategy_chunk) = Some "doc-7").
Proof.
  apply (proj1 (document_and_source_filters_reach_both_searches
                  [("document_id", "doc-7")] "doc-7" Scenario.strategy_chunk
                  (cand_payload Scenario.strategy_chunk))).
  reflexivity.
Defined.

(* ====================================================================== *)
(** ** Further properties of the chunker *)
(* ====================================================================== *)

Lemma lstrip_starts (s : string) :
  whitespace_only s = false ->
  exists c rest, lstrip s = String c rest /\ is_space c = false.
Proof.
  induction s as [|c s IH]; simpl; [discriminate|].
  destruct (is_space c) eqn:E; simpl; [exact IH | eauto].
Qed.

Lemma rstrip_keeps_head (c : ascii) (s : string) :
  is_space c = false -> exists rest, rstrip (String c s) = String c rest.
Proof.
  intros E. cbn [rstrip]. destruct (rstrip s); [rewrite E|]; eauto.
Qed.

Lemma strip_starts (s : string) :
  whitespace_only s = false ->
  exists c rest, strip s = String c rest /\ is_space c = false.
Proof.
  intros H. destruct (lstrip_starts s H) as (c & rest & Hl & Hc).
  unfold strip. rewrite Hl. destruct (rstrip_keeps_head c rest Hc) as (rest' & Hr).
  eauto.
Qed.

Lemma snoc_append (piece : string) (c : ascii) (t : string) :
  (snoc piece c ++ t)%string = (piece ++ String c t)%string.
Proof.
  unfold snoc. induction piece as [|a piece IH]; simpl; [reflexivity|].
  rewrite IH. reflexivity.
Qed.

Lemma append_empty (s : string) : (s ++ "")%string = s.
Proof. induction s as [|a s IH]; simpl; [reflexivity | rewrite IH; reflexivity]. Qed.

(** The first piece of a split starts with the piece being read. *)
Lemma re_split_first (s : string) :
  forall piece after_end in_sep,
    exists tail pieces,
      re_split_from piece after_end in_sep s = (piece ++ tail)%string :: pieces.
Proof.
  induction s as [|c s IH]; intros piece after_end in_sep.
  - exists EmptyString, []. simpl. rewrite append_empty. reflexivity.
  - cbn [re_split_from].
    destruct (is_space c && in_sep).
    + apply IH.
    + destruct (is_space c && after_end).
      * exists EmptyString. eexists. rewrite append_empty. reflexivity.
      * destruct (IH (snoc piece c) (is_sentence_end c) false) as (tail & pieces & H).
        exists (String c tail), pieces. rewrite H, snoc_append. reflexivity.
Qed.

Lemma split_sentences_first (c : ascii) (s : string) :
  is_space c = false ->
  exists tail pieces, split_sentences (String c s) = String c tail :: pieces.
Proof.
  intros E. unfold split_sentences. cbn [re_split_from]. rewrite E. cbn [andb].
  destruct (re_split_first s (snoc EmptyString c) (is_sentence_end c) false)
    as (tail & pieces & H).
  exists tail, pieces. rewrite H. reflexivity.
Qed.

Lemma snoc_not_empty (word : string) (c : ascii) : is_empty (snoc word c) = false.
Proof. destruct word; reflexivity. Qed.

Lemma split_from_word (s : string) :
  forall word, is_empty word = false -> split_from word s <> [].
Proof.
  induction s as [|c s IH]; intros word Hw; cbn [split_from].
  - rewrite Hw. discriminate.
  - destruct (is_space c).
    + rewrite Hw. discriminate.
    + apply IH. apply snoc_not_empty.
Qed.

Lemma split_has_word (c : ascii) (s : string) :
  is_space c = false -> split (String c s) <> [].
Proof.
  intros E. unfold split. cbn [split_from]. rewrite E.
  apply split_from_word. apply snoc_not_empty.
Qed.

Section ChunkerFacts.

Variable TOKENIZER : option (string -> Z).
Variable chunk_size : Z.
Variable chunk_overlap : Z.

Lemma split_words_grows (char_pos : Z) (words : list string) :
  forall chunks word_chunk word_tokens word_start chunks' word_chunk' word_start',
    split_words TOKENIZER chunk_size chunk_overlap char_pos words chunks word_chunk
      word_tokens word_start = (chunks', word_chunk', word_start') ->
    (chunks <> [] -> chunks' <> [])
    /\ (words <> [] \/ word_chunk <> [] -> word_chunk' <> []).
Proof.
  induction words as [|word rest IH];
    intros chunks wc wt ws chunks' wc' ws' Hrun.
  - simpl in Hrun. injection Hrun as <- <- <-. split; [tauto|].
    intros [H | H]; [contradiction | exact H].
  - cbn [split_words] in Hrun.
    destruct ((chunk_size <? wt + count_tokens TOKENIZER word) && truthy wc).
    + destruct (take_overlap TOKENIZER chunk_overlap (rev wc) [] 0) as [ov ot].
      destruct (IH _ _ _ _ _ _ _ Hrun) as (Hc & Hw). split.
      * intros _. apply Hc. destruct chunks; discriminate.
      * intros _. apply Hw. right. destruct ov; discriminate.
    + destruct (IH _ _ _ _ _ _ _ Hrun) as (Hc & Hw). split.
      * exact Hc.
      * intros _. apply Hw. right. destruct wc; discriminate.
Qed.

Lemma chunk_sentences_grows (sentences : list string) :
  forall chunks current_chunk current_tokens chunk_start char_pos,
    chunks <> [] \/ current_chunk <> [] ->
    chunk_sentences TOKENIZER chunk_size chunk_overlap sentences chunks current_chunk
      current_tokens chunk_start char_pos <> [].
Proof.
  induction sentences as [|sentence rest IH];
    intros chunks cur ct cs cp Hne.
  - cbn [chunk_sentences]. destruct cur as [|s cur]; cbn [truthy].
    + destruct Hne as [H | H]; [exact H | contradiction].
    + destruct chunks; discriminate.
  - cbn [chunk_sentences].
    destruct (chunk_size <? count_tokens TOKENIZER sentence).
    + destruct (split_words TOKENIZER chunk_size chunk_overlap cp (split sentence)
                  (if truthy cur then chunks ++ [(join cur, cs, cp)] else chunks)
                  [] 0 cp) as [[chunks1 wc] ws] eqn:Hsw.
      apply IH. left.
      destruct (split_words_grows _ _ _ _ _ _ _ _ _ Hsw) as (Hc & _).
      assert (Hc1 : chunks1 <> []).
      { apply Hc. destruct cur as [|s cur]; cbn [truthy].
        - destruct Hne as [H | H]; [exact H | contradiction].
        - destruct chunks; discriminate. }
      destruct (truthy wc); [destruct chunks1; discriminate | exact Hc1].
    + destruct ((chunk_size <? ct + count_tokens TOKENIZER sentence) && truthy cur).
      * destruct (take_overlap TOKENIZER chunk_overlap (rev cur) [] 0) as [ov ot].
        apply IH. left. destruct chunks; discriminate.
      * apply IH. right. destruct cur; discriminate.
Qed.

(** X10. [chunk_text] returns no chunk only for a text that is empty or
    all whitespace: any other text yields at least one chunk, whatever the
    tokenizer, the chunk size and the overlap. *)
Theorem chunk_text_empty_iff_whitespace (text : string) :
  chunk_text TOKENIZER text chunk_size chunk_overlap = []
  <-> whitespace_only text = true.
Proof.
  split.
  - intros Hnone. destruct (whitespace_only text) eqn:E; [reflexivity|]. exfalso.
    destruct (strip_starts text E) as (c & rest & Hstrip & Hc).
    unfold chunk_text in Hnone. rewrite Hstrip in Hnone. cbn [is_empty] in Hnone.
    destruct (split_sentences_first c rest Hc) as (tail & pieces & Hsent).
    rewrite Hsent in Hnone. revert Hnone. cbn [chunk_sentences truthy andb].
    destruct (chunk_size <? count_tokens TOKENIZER (String c tail)).
    + destruct (split_words TOKENIZER chunk_size chunk_overlap 0
                  (split (String c tail)) [] [] 0 0) as [[chunks1 wc] ws] eqn:Hsw.
      destruct (split_words_grows _ _ _ _ _ _ _ _ _ Hsw) as (_ & Hw).
      assert (Hwc : wc <> []) by (apply Hw; left; apply split_has_word; exact Hc).
      destruct wc as [|w wc]; [contradiction|]. cbn [truthy].
      apply chunk_sentences_grows. left. destruct chunks1; discriminate.
    + rewrite andb_false_r. apply chunk_sentences_grows. right. discriminate.
  - intros H. unfold chunk_text, strip.
    rewrite (lstrip_whitespace_only text H). reflexivity.
Qed.

End ChunkerFacts.

Lemma len_nonneg (s : string) : 0 <= len s.
Proof. unfold len. lia. Qed.

Lemma overlap_chars_nonneg (units : list string) : 0 <= overlap_chars units.
Proof.
  induction units as [|u rest IH]; simpl; [lia|]. pose proof (len_nonneg u). lia.
Qed.

Lemma overlap_chars_app (l1 l2 : list string) :
  overlap_chars (l1 ++ l2) = overlap_chars l1 + overlap_chars l2.
Proof.
  induction l1 as [|u rest IH]; simpl; [reflexivity|]. rewrite IH. lia.
Qed.

Lemma overlap_chars_rev (units : list string) :
  overlap_chars (rev units) = overlap_chars units.
Proof.
  induction units as [|u rest IH]; simpl; [reflexivity|].
  rewrite overlap_chars_app, IH. simpl. lia.
Qed.

Lemma strongly_sorted_snoc {A : Type} (R : A -> A -> Prop) (l : list A) (x : A) :
  StronglySorted R l -> Forall (fun a => R a x) l -> StronglySorted R (l ++ [x]).
Proof.
  induction l as [|a l IH]; intros Hs Hall; simpl.
  - constructor; constructor.
  - inversion Hs as [|? ? Hrest Ha]; subst.
    inversion Hall as [|? ? Hax Hall']; subst.
    constructor; [apply IH; assumption|].
    apply Forall_app. split; [exact Ha | constructor; [exact Hax | constructor]].
Qed.

Lemma collected_snoc (chunks : list Chunk) (bound : Z) (t : string) (s e : Z) :
  collected chunks bound -> bound <= s -> 0 <= s <= e ->
  collected (chunks ++ [(t, s, e)]) s.
Proof.
  intros (Hwf & Hsorted & Hbound) Hs Hse. split; [|split].
  - apply Forall_app. split; [exact Hwf | constructor; [exact Hse | constructor]].
  - apply strongly_sorted_snoc; [exact Hsorted|].
    eapply Forall_impl; [|exact Hbound]. cbv beta.
    intros a Ha. unfold start_of in *. simpl. lia.
  - apply Forall_app. split.
    + eapply Forall_impl; [|exact Hbound]. cbv beta. intros a Ha. lia.
    + constructor; [unfold start_of; simpl; lia | constructor].
Qed.

Lemma collected_weaken (chunks : list Chunk) (bound bound' : Z) :
  collected chunks bound -> bound <= bound' -> collected chunks bound'.
Proof.
  intros (Hwf & Hsorted & Hbound) Hle. split; [exact Hwf|]. split; [exact Hsorted|].
  eapply Forall_impl; [|exact Hbound]. cbv beta. intros a Ha. lia.
Qed.

Section ChunkerOffsets.

Variable TOKENIZER : option (string -> Z).
Variable chunk_size : Z.
Variable chunk_overlap : Z.

(** The overlap kept is part of the closed chunk: it is no longer. *)
Lemma take_overlap_chars (reversed_units : list string) :
  forall overlap_units overlap_tokens,
    overlap_chars
      (fst (take_overlap TOKENIZER chunk_overlap reversed_units overlap_units
              overlap_tokens))
    <= overlap_chars reversed_units + overlap_chars overlap_units.
Proof.
  induction reversed_units as [|u rest IH]; intros ov ot; cbn [take_overlap].
  - simpl. lia.
  - destruct (ot + count_tokens TOKENIZER u <=? chunk_overlap).
    + specialize (IH (u :: ov) (ot + count_tokens TOKENIZER u)).
      simpl in *. lia.
    + cbn [fst]. pose proof (overlap_chars_nonneg (u :: rest)). lia.
Qed.

Lemma split_words_offsets (char_pos : Z) (words : list string) :
  0 <= char_pos ->
  forall chunks word_chunk word_tokens chunks' word_chunk' word_start',
    collected chunks char_pos ->
    split_words TOKENIZER chunk_size chunk_overlap char_pos words chunks word_chunk
      word_tokens char_pos = (chunks', word_chunk', word_start') ->
    collected chunks' char_pos /\ word_start' = char_pos.
Proof.
  intros Hpos.
  induction words as [|word rest IH]; intros chunks wc wt chunks' wc' ws' Hcol Hrun.
  - simpl in Hrun. injection Hrun as <- _ <-. auto.
  - cbn [split_words] in Hrun.
    destruct ((chunk_size <? wt + count_tokens TOKENIZER word) && truthy wc).
    + destruct (take_overlap TOKENIZER chunk_overlap (rev wc) [] 0) as [ov ot].
      replace (char_pos + len (join (ov ++ [word])) - len (join (ov ++ [word])))
        with char_pos in Hrun by lia.
      refine (IH _ _ _ _ _ _ _ Hrun).
      pose proof (len_nonneg (join wc)).
      apply (collected_snoc _ char_pos); [exact Hcol | lia | lia].
    + exact (IH _ _ _ _ _ _ Hcol Hrun).
Qed.

Lemma chunk_sentences_offsets (sentences : list string) :
  forall chunks current_chunk current_tokens chunk_start char_pos,
    collected chunks chunk_start ->
    0 <= chunk_start ->
    chunk_start + overlap_chars current_chunk = char_pos ->
    exists bound,
      collected
        (chunk_sentences TOKENIZER chunk_size chunk_overlap sentences chunks
           current_chunk current_tokens chunk_start char_pos) bound.
Proof.
  induction sentences as [|sentence rest IH];
    intros chunks cur ct cs cp Hcol Hcs Hpos.
  - cbn [chunk_sentences]. pose proof (overlap_chars_nonneg cur).
    destruct (truthy cur); [|eauto].
    exists cs. apply (collected_snoc _ cs); [exact Hcol | lia | lia].
  - pose proof (overlap_chars_nonneg cur) as Hcur.
    pose proof (len_nonneg sentence) as Hlen.
    assert (Hflush : collected (if truthy cur then chunks ++ [(join cur, cs, cp)]
                                else chunks) cp).
    { destruct (truthy cur).
      - apply (collected_weaken _ cs); [|lia].
        apply (collected_snoc _ cs); [exact Hcol | lia | lia].
      - apply (collected_weaken _ cs); [exact Hcol | lia]. }
    cbn [chunk_sentences].
    destruct (chunk_size <? count_tokens TOKENIZER sentence).
    + destruct (split_words TOKENIZER chunk_size chunk_overlap cp (split sentence)
                  (if truthy cur then chunks ++ [(join cur, cs, cp)] else chunks)
                  [] 0 cp) as [[chunks1 wc] ws] eqn:Hsw.
      destruct (split_words_offsets cp (split sentence) ltac:(lia) _ _ _ _ _ _
                  Hflush Hsw) as (Hcol1 & ->).
      apply IH; [|lia | simpl; lia].
      apply (collected_weaken _ cp); [|lia].
      destruct (truthy wc); [|exact Hcol1].
      apply (collected_snoc _ cp); [exact Hcol1 | lia | lia].
    + destruct ((chunk_size <? ct + count_tokens TOKENIZER sentence) && truthy cur)
        eqn:Hclose.
      * apply andb_true_iff in Hclose. destruct Hclose as (_ & Htruthy).
        rewrite Htruthy in Hflush.
        pose proof (take_overlap_chars (rev cur) [] 0) as Hov.
        destruct (take_overlap TOKENIZER chunk_overlap (rev cur) [] 0) as [ov ot].
        cbn [fst] in Hov. rewrite overlap_chars_rev in Hov. simpl in Hov.
        pose proof (overlap_chars_nonneg ov) as Hovn.
        apply IH.
        -- apply (collected_weaken _ cs); [|lia].
           apply (collected_snoc _ cs); [exact Hcol | lia | lia].
        -- lia.
        -- rewrite overlap_chars_app. simpl. lia.
      * apply IH; [exact Hcol | exact Hcs |].
        rewrite overlap_chars_app. simpl. lia.
Qed.

(** X11. Every chunk [chunk_text] returns has [0 <= char_start <= char_end],
    and the chunks come in the order of their start offsets: no chunk
    starts before an earlier one. *)
Theorem chunk_text_offsets_ordered (text : string) :
  Forall (fun c => 0 <= start_of c <= end_of c)
    (chunk_text TOKENIZER text chunk_size chunk_overlap)
  /\ StronglySorted (fun a b => start_of a <= start_of b)
       (chunk_text TOKENIZER text chunk_size chunk_overlap).
Proof.
  unfold chunk_text. destruct (is_empty (strip text)).
  - split; constructor.
  - destruct (chunk_sentences_offsets (split_sentences (strip text)) [] [] 0 0 0)
      as (bound & Hwf & Hsorted & _).
    + repeat split; constructor.
    + lia.
    + reflexivity.
    + split; assumption.
Qed.

End ChunkerOffsets.

(* ====================================================================== *)
(** ** Page attribution *)
(* ====================================================================== *)

Lemma page_scan_monotone (page_breaks : list Z) :
  forall (i p p' : Z),
    p <= p' -> page_scan p i page_breaks <= page_scan p' i page_breaks.
Proof.
  induction page_breaks as [|b rest IH]; intros i p p' Hle; cbn [page_scan]; [lia|].
  destruct (p <? b) eqn:E; destruct (p' <? b) eqn:E'.
  - lia.
  - pose proof (page_scan_bounds p' rest (i + 1)). lia.
  - apply Z.ltb_ge in E. apply Z.ltb_lt in E'. lia.
  - apply IH. exact Hle.
Qed.

(** X12. [extract_page_from_position] is monotone in the position: a later
    character position is never put on an earlier page, for any list of
    page breaks. *)
Theorem extract_page_from_position_monotone
  (page_breaks : list Z) (p p' page page' : Z) :
  p <= p' ->
  extract_page_from_position p page_breaks = Some page ->
  extract_page_from_position p' page_breaks = Some page' ->
  page <= page'.
Proof.
  unfold extract_page_from_position. intros Hle.
  destruct (truthy page_breaks); [|discriminate].
  intros H H'. injection H as <-. injection H' as <-.
  apply page_scan_monotone. exact Hle.
Qed.

Lemma extract_page_from_position_monotone_witness :
  7 <= 12
  /\ extract_page_from_position 7 [0; 10; 20] = Some 2
  /\ extract_page_from_position 12 [0; 10; 20] = Some 3
  /\ 2 <= 3.
Proof.
  split; [lia|]. split; [reflexivity|]. split; [reflexivity|].
  apply (extract_page_from_position_monotone [0; 10; 20] 7 12 2 3);
    [lia | reflexivity | reflexivity].
Defined.

Lemma page_scan_first_break (char_position : Z) (page_breaks : list Z) :
  forall i,
    page_scan char_position i page_breaks
    = match Ingest.first_break_past char_position i page_breaks with
      | Some j => j + 1
      | None => i + llen page_breaks + 1
      end.
Proof.
  induction page_breaks as [|b rest IH]; intros i.
  - simpl. unfold llen. simpl. lia.
  - cbn [page_scan Ingest.first_break_past]. destruct (char_position <? b); [reflexivity|].
    rewrite IH, llen_cons. destruct (Ingest.first_break_past _ _ rest); lia.
Qed.

(** X13. The page function of the chunking module is one ahead of the one
    ingestion uses: for the same position and page breaks,
    [extract_page_from_position] returns the page of [determine_page] plus
    one, and [None] exactly when [determine_page] does. *)
Theorem extract_page_is_determine_page_plus_one
  (char_position : Z) (page_breaks : list Z) :
  extract_page_from_position char_position page_breaks
  = option_map (fun page => page + 1) (Ingest.determine_page char_position page_breaks).
Proof.
  unfold extract_page_from_position, Ingest.determine_page.
  destruct (truthy page_breaks); [|reflexivity].
  rewrite page_scan_first_break.
  destruct (Ingest.first_break_past char_position 0 page_breaks); cbn [option_map];
    f_equal; lia.
Qed.

Lemma first_break_past_counts (char_start : Z) (page_breaks : list Z) :
  StronglySorted Z.le page_breaks ->
  forall i,
    match Ingest.first_break_past char_start i page_breaks with
    | Some j => j = i + llen (filter (fun b => b <=? char_start) page_breaks)
    | None => llen (filter (fun b => b <=? char_start) page_breaks) = llen page_breaks
    end.
Proof.
  induction page_breaks as [|b rest IH]; intros Hs i; [reflexivity|].
  inversion Hs as [|? ? Hrest Hb]; subst.
  cbn [Ingest.first_break_past filter].
  destruct (char_start <? b) eqn:E.
  - apply Z.ltb_lt in E.
    assert (Hb' : (b <=? char_start) = false) by (apply Z.leb_gt; exact E).
    rewrite Hb'.
    assert (Hnone : filter (fun b0 => b0 <=? char_start) rest = []).
    { clear - Hb E. induction rest as [|x rest IH]; [reflexivity|].
      inversion Hb as [|? ? Hx Hrest]; subst. cbn [filter].
      assert (Hx' : (x <=? char_start) = false) by (apply Z.leb_gt; lia).
      rewrite Hx'. apply IH. exact Hrest. }
    rewrite Hnone. unfold llen. simpl. lia.
  - apply Z.ltb_ge in E.
    assert (Hb' : (b <=? char_start) = true) by (apply Z.leb_le; exact E).
    rewrite Hb'. specialize (IH Hrest (i + 1)). rewrite !llen_cons.
    destruct (Ingest.first_break_past char_start (i + 1) rest); lia.
Qed.

(** X14. For page breaks in ascending order, [determine_page] returns the
    number of breaks at or before the position: with the start offset of
    each page as its break, that is the 1-based number of the page the
    position lies on. *)
Theorem determine_page_counts_page_starts (char_start : Z) (page_breaks : list Z) :
  StronglySorted Z.le page_breaks ->
  page_breaks <> [] ->
  Ingest.determine_page char_start page_breaks
  = Some (llen (filter (fun b => b <=? char_start) page_breaks)).
Proof.
  intros Hs Hne. unfold Ingest.determine_page.
  destruct page_breaks as [|b rest]; [contradiction|]. cbn [truthy].
  pose proof (first_break_past_counts char_start (b :: rest) Hs 0) as H.
  destruct (Ingest.first_break_past char_start 0 (b :: rest)); f_equal; lia.
Qed.

Lemma determine_page_counts_page_starts_witness :
  Ingest.determine_page 12 [0; 10; 20] = Some 2
  /\ Ingest.determine_page 12 [0; 10; 20]
     = Some (llen (filter (fun b => b <=? 12) [0; 10; 20])).
Proof.
  split; [reflexivity|].
  apply (determine_page_counts_page_starts 12 [0; 10; 20]).
  - repeat constructor; lia.
  - discriminate.
Defined.

Lemma first_break_past_bounds (char_start : Z) (page_breaks : list Z) :
  forall i j,
    Ingest.first_break_past char_start i page_breaks = Some j ->
    i <= j < i + llen page_breaks.
Proof.
  induction page_breaks as [|b rest IH]; intros i j H; [discriminate|].
  cbn [Ingest.first_break_past] in H. rewrite llen_cons.
  pose proof (llen_nonneg rest).
  destruct (char_start <? b).
  - injection H as <-. lia.
  - specialize (IH _ _ H). lia.
Qed.

Lemma determine_page_from_zero (char_start : Z) (rest : list Z) :
  0 <= char_start ->
  exists p, Ingest.determine_page char_start (0 :: rest) = Some p
            /\ 1 <= p <= llen rest + 1.
Proof.
  intros Hpos. unfold Ingest.determine_page. cbn [truthy Ingest.first_break_past].
  assert (E : (char_start <? 0) = false) by (apply Z.ltb_ge; exact Hpos).
  rewrite E. rewrite llen_cons. pose proof (llen_nonneg rest).
  destruct (Ingest.first_break_past char_start (0 + 1) rest) as [j|] eqn:F.
  - exists j. split; [reflexivity|]. apply first_break_past_bounds in F. lia.
  - eexists. split; [reflexivity|]. lia.
Qed.

(** X15. The records ingestion builds from the chunks of a text whose first
    page starts at offset 0: one record per chunk, in order; the record at
    position [i] has chunk index [i], the text of chunk [i], the source
    reference, the document id, and a page number between 1 and the number
    of pages. No ingested chunk has page 0 or no page. *)
Theorem ingested_chunks_have_a_page
  (uuid4 : Z -> string) (TOKENIZER : option (string -> Z)) (text : string)
  (chunk_size chunk_overlap : Z) (document_id source_ref : string)
  (later_breaks : list Z) :
  List.length (Ingest.qdrant_chunks uuid4 document_id source_ref (0 :: later_breaks)
                 (chunk_text TOKENIZER text chunk_size chunk_overlap))
  = List.length (chunk_text TOKENIZER text chunk_size chunk_overlap)
  /\ (forall i rec,
        nth_error (Ingest.qdrant_chunks uuid4 document_id source_ref (0 :: later_breaks)
                     (chunk_text TOKENIZER text chunk_size chunk_overlap)) i = Some rec ->
        exists c p,
          nth_error (chunk_text TOKENIZER text chunk_size chunk_overlap) i = Some c
          /\ Ingest.stored_chunk_index rec = Z.of_nat i
          /\ Ingest.stored_text rec = text_of c
          /\ Ingest.stored_source rec = Some source_ref
          /\ Ingest.stored_document_id rec = document_id
          /\ Ingest.stored_page rec = Some p
          /\ 1 <= p <= llen later_breaks + 1).
Proof.
  assert (Hstart : Forall (fun c => 0 <= start_of c)
                     (chunk_text TOKENIZER text chunk_size chunk_overlap)).
  { unfold chunk_text. destruct (is_empty (strip text)); [constructor|].
    destruct (chunk_sentences_offsets TOKENIZER chunk_size chunk_overlap
                (split_sentences (strip text)) [] [] 0 0 0) as (bound & Hwf & _).
    - repeat split; constructor.
    - lia.
    - reflexivity.
    - eapply Forall_impl; [|exact Hwf]. cbv beta. intros c Hc. lia. }
  set (chunks := chunk_text TOKENIZER text chunk_size chunk_overlap) in *.
  unfold Ingest.qdrant_chunks, enumerate. split.
  - rewrite length_map. apply length_enumerate_from.
  - intros i rec Hrec.
    rewrite nth_error_map, nth_error_enumerate_from in Hrec.
    destruct (nth_error chunks i) as [c|] eqn:Hc; [|discriminate].
    cbn [option_map] in Hrec. injection Hrec as <-.
    rewrite Forall_forall in Hstart.
    pose proof (Hstart c (nth_error_In _ _ Hc)) as Hc0.
    destruct c as [[t s] e]. unfold start_of in Hc0. cbn [fst snd] in Hc0.
    destruct (determine_page_from_zero s later_breaks Hc0) as (p & Hp & Hbounds).
    exists (t, s, e), p. cbn [Ingest.chunk_record Ingest.stored_chunk_index
      Ingest.stored_text Ingest.stored_source Ingest.stored_document_id
      Ingest.stored_page text_of fst].
    repeat split; try assumption; try lia.
Qed.

(* ====================================================================== *)
(** ** Words: [split] and [join] *)
(* ====================================================================== *)

Lemma split_from_past_word (w : string) :
  forall word s,
    no_space w = true ->
    split_from word (w ++ s)%string = split_from (word ++ w)%string s.
Proof.
  induction w as [|c w IH]; intros word s Hw.
  - simpl. rewrite append_empty. reflexivity.
  - simpl in Hw. apply andb_true_iff in Hw. destruct Hw as (Hc & Hw).
    apply negb_true_iff in Hc. cbn [append split_from]. rewrite Hc.
    rewrite (IH _ _ Hw), snoc_append. reflexivity.
Qed.

Lemma split_word (w : string) : is_word w -> split w = [w].
Proof.
  intros (Hne & Hw). unfold split.
  rewrite <- (append_empty w) at 1. rewrite (split_from_past_word w _ _ Hw).
  cbn [append split_from]. rewrite Hne. reflexivity.
Qed.

Lemma join_cons (w : string) (words : list string) :
  words <> [] -> join (w :: words) = (w ++ String " " (join words))%string.
Proof.
  intros Hne. unfold join. destruct words; [contradiction | reflexivity].
Qed.

Lemma split_join_cons (w : string) (rest : list string) :
  is_word w -> rest <> [] -> split (join (w :: rest)) = w :: split (join rest).
Proof.
  intros (Hne & Hw) Hrest. rewrite join_cons by exact Hrest.
  unfold split. rewrite (split_from_past_word w _ _ Hw).
  cbn [append split_from]. replace (is_space " ") with true by reflexivity.
  rewrite Hne. reflexivity.
Qed.

(** X16. Splitting undoes joining: for words (non-empty strings without
    whitespace), [' '.join(words).split()] is [words] again. *)
Theorem split_join_round_trip (words : list string) :
  Forall is_word words -> split (join words) = words.
Proof.
  induction words as [|w rest IH]; intros Hwords; [reflexivity|].
  inversion Hwords as [|? ? Hw Hrest]; subst.
  destruct rest as [|w2 rest]; [apply split_word; exact Hw|].
  rewrite (split_join_cons w _ Hw) by discriminate.
  f_equal. apply IH. exact Hrest.
Qed.

Lemma split_join_round_trip_witness :
  Forall is_word ["grid"; "code,"; "section"; "4."]
  /\ split (join ["grid"; "code,"; "section"; "4."])
     = ["grid"; "code,"; "section"; "4."].
Proof.
  assert (H : Forall is_word ["grid"; "code,"; "section"; "4."])
    by (repeat constructor).
  split; [exact H | exact (split_join_round_trip _ H)].
Defined.

Lemma no_space_snoc (word : string) (c : ascii) :
  no_space word = true -> is_space c = false -> no_space (snoc word c) = true.
Proof.
  intros Hw Hc. unfold snoc. induction word as [|a word IH]; simpl in *.
  - rewrite Hc. reflexivity.
  - apply andb_true_iff in Hw. destruct Hw as (Ha & Hw).
    rewrite Ha, (IH Hw). reflexivity.
Qed.

Lemma split_from_words (s : string) :
  forall word, no_space word = true -> Forall is_word (split_from word s).
Proof.
  induction s as [|c s IH]; intros word Hw; cbn [split_from].
  - destruct (is_empty word) eqn:E; repeat constructor; assumption.
  - destruct (is_space c) eqn:Hc.
    + destruct (is_empty word) eqn:E.
      * apply IH. reflexivity.
      * constructor; [split; assumption | apply IH; reflexivity].
    + apply IH. apply no_space_snoc; assumption.
Qed.

(** X17. [text.split()] returns words only, re-joining and re-splitting
    them changes nothing, and so the token count of the fallback (no
    tiktoken) is that of the text with its whitespace normalised:
    [count_tokens(' '.join(text.split())) = count_tokens(text)]. *)
Theorem split_normalises_whitespace (text : string) :
  Forall is_word (split text)
  /\ split (join (split text)) = split text
  /\ count_tokens None (join (split text)) = count_tokens None text.
Proof.
  assert (Hwords : Forall is_word (split text))
    by (apply split_from_words; reflexivity).
  assert (Hround : split (join (split text)) = split text).
  { clear - Hwords. induction (split text) as [|w rest IH]; [reflexivity|].
    inversion Hwords as [|? ? Hw Hrest]; subst.
    destruct rest as [|w2 rest]; [apply split_word; exact Hw|].
    rewrite (split_join_cons w _ Hw) by discriminate.
    f_equal. apply IH. exact Hrest. }
  split; [exact Hwords|]. split; [exact Hround|].
  unfold count_tokens. rewrite Hround. reflexivity.
Qed.

(* ====================================================================== *)
(** ** Callers of the retrieval: sources and citations *)
(* ====================================================================== *)

Lemma existsb_eqb_in (s : string) (l : list string) :
  existsb (String.eqb s) l = true <-> In s l.
Proof.
  rewrite existsb_exists. split.
  - intros (x & Hin & Heq). apply String.eqb_eq in Heq. subst x. exact Hin.
  - intros Hin. exists s. split; [exact Hin | apply String.eqb_refl].
Qed.

Lemma unique_sources_spec (chunks : list RetrievedChunk) :
  forall sources seen,
    (forall s, In s seen <-> In s sources) ->
    NoDup sources ->
    NoDup (Agents.unique_sources chunks sources seen)
    /\ (forall s, In s (Agents.unique_sources chunks sources seen)
                  <-> In s sources
                      \/ (is_empty s = false
                          /\ exists c, In c chunks /\ citation c = s))
    /\ (List.length (Agents.unique_sources chunks sources seen)
        <= List.length sources + List.length chunks)%nat.
Proof.
  induction chunks as [|chunk rest IH]; intros sources seen Hseen Hnd.
  - cbn [Agents.unique_sources]. split; [exact Hnd|]. split; [|simpl; lia].
    intros s. split; [auto|]. intros [H | (_ & c & [] & _)]. exact H.
  - cbn [Agents.unique_sources].
    destruct (is_empty (citation chunk)) eqn:He; cbn [negb andb].
    + destruct (IH sources seen Hseen Hnd) as (Hn & Hin & Hlen).
      split; [exact Hn|]. split; [|simpl; lia].
      intros s. rewrite Hin. split.
      * intros [H | (Hs & c & Hc & Hcit)]; [auto|]. right. split; [exact Hs|].
        exists c. split; [right; exact Hc | exact Hcit].
      * intros [H | (Hs & c & [<- | Hc] & Hcit)]; [auto | congruence |].
        right. split; [exact Hs|]. exists c. auto.
    + destruct (existsb (String.eqb (citation chunk)) seen) eqn:Hx; cbn [negb].
      * apply existsb_eqb_in in Hx. apply Hseen in Hx.
        destruct (IH sources seen Hseen Hnd) as (Hn & Hin & Hlen).
        split; [exact Hn|]. split; [|simpl; lia].
        intros s. rewrite Hin. split.
        -- intros [H | (Hs & c & Hc & Hcit)]; [auto|]. right. split; [exact Hs|].
           exists c. split; [right; exact Hc | exact Hcit].
        -- intros [H | (Hs & c & [<- | Hc] & Hcit)]; [auto | subst s; auto |].
           right. split; [exact Hs|]. exists c. auto.
      * assert (Hnew : ~ In (citation chunk) sources).
        { intros H. apply Hseen in H. apply existsb_eqb_in in H. congruence. }
        destruct (IH (sources ++ [citation chunk]) (citation chunk :: seen))
          as (Hn & Hin & Hlen).
        { intros s. rewrite in_app_iff. simpl. rewrite Hseen. tauto. }
        { apply NoDup_app; [exact Hnd | repeat constructor; simpl; tauto |].
          intros x Hxs [Hx' | []]. subst x. exact (Hnew Hxs). }
        split; [exact Hn|]. split.
        -- intros s. rewrite Hin, in_app_iff. simpl. split.
           ++ intros [[H | [<- | []]] | (Hs & c & Hc & Hcit)]; [auto | | ].
              ** right. split; [exact He|]. exists chunk. auto.
              ** right. split; [exact Hs|]. exists c. auto.
           ++ intros [H | (Hs & c & [<- | Hc] & Hcit)]; [auto | subst s; auto |].
              right. split; [exact Hs|]. exists c. auto.
        -- rewrite length_app in Hlen. simpl in *. lia.
Qed.

Lemma format_citation_not_empty (source : string) (page : option Z) :
  is_empty (format_citation source page) = false.
Proof.
  unfold format_citation. destruct page as [p|]; [destruct (p =? 0)|]; reflexivity.
Qed.

Section CallerFacts.

Variable get_embedding : string -> result (list Q).
Variable client_search : list Q -> Z -> option Filter -> result (list ScoredPoint).
Variable db_execute : Select -> result (list Row).

Lemma retrieved_citation_not_empty
  (query : string) (top_n semantic_k keyword_k : Z) (filters : Filters)
  (results : list RetrievedChunk) (r : RetrievedChunk) :
  hybrid_retrieve get_embedding client_search db_execute
    query top_n semantic_k keyword_k filters = Ok results ->
  In r results ->
  citation r = format_citation (source (chunk (fused r))) (page (chunk (fused r))).
Proof.
  intros Hrun Hr.
  destruct (hybrid_retrieve_returns _ _ _ _ _ _ _ _ _ Hrun)
    as (sh & kh & f & _ & _ & _ & ->).
  apply in_map_iff in Hr. destruct Hr as (fr & <- & _). reflexivity.
Qed.

(** X18. The sources [retrieve_context] returns beside the chunks: each
    citation of a retrieved chunk occurs in them, exactly once, nothing else
    does, and so there are at most as many sources as chunks. The chunks are
    those of [hybrid_retrieve] for the agent's [top_n] and filters. *)
Theorem retrieve_context_sources
  (self : Agents.BaseAgent) (query : string)
  (chunks : list RetrievedChunk) (sources : list string) :
  Agents.retrieve_context get_embedding client_search db_execute self query
  = Ok (chunks, sources) ->
  hybrid_retrieve get_embedding client_search db_execute query
    (Agents.get_top_n self) 15 15 (Agents.get_retrieval_filters self) = Ok chunks
  /\ NoDup sources
  /\ (forall s, In s sources <-> exists c, In c chunks /\ citation c = s)
  /\ (List.length sources <= List.length chunks)%nat.
Proof.
  unfold Agents.retrieve_context.
  destruct (hybrid_retrieve _ _ _ _ _ _ _ _) as [cs|e] eqn:Hrun; cbn [bind];
    [|discriminate].
  intros H. injection H as <- <-. split; [reflexivity|].
  destruct (unique_sources_spec cs [] []) as (Hnd & Hin & Hlen);
    [tauto | constructor |].
  split; [exact Hnd|]. split; [|simpl in Hlen; lia].
  intros s. rewrite Hin. split.
  - intros [[] | (_ & c & Hc)]. eauto.
  - intros (c & Hc & <-). right. split; [|eauto].
    rewrite (retrieved_citation_not_empty _ _ _ _ _ _ _ Hrun Hc).
    apply format_citation_not_empty.
Qed.

(** X19. The prompt builder cites a retrieved chunk as the retriever did:
    [_format_citation] returns the [citation] of every chunk
    [hybrid_retrieve] returned; and for a chunk dict without a citation it
    builds, from source and page, the very string [hybrid_retrieve] would
    (page 0 is left out there too). *)
Theorem builder_cites_like_the_retriever
  (query : string) (top_n semantic_k keyword_k : Z) (filters : Filters)
  (results : list RetrievedChunk) (r : RetrievedChunk) :
  hybrid_retrieve get_embedding client_search db_execute
    query top_n semantic_k keyword_k filters = Ok results ->
  In r results ->
  Prompts._format_citation (Prompts.as_dict r) = citation r
  /\ (forall title,
        Prompts._format_citation
          {| Prompts.dict_citation := None;
             Prompts.dict_source := Some (source (chunk (fused r)));
             Prompts.dict_title := title;
             Prompts.dict_page := page (chunk (fused r)) |}
        = citation r).
Proof.
  intros Hrun Hr.
  pose proof (retrieved_citation_not_empty _ _ _ _ _ _ _ Hrun Hr) as Hcit.
  split.
  - unfold Prompts._format_citation, Prompts.as_dict.
    cbn [Prompts.dict_citation]. rewrite Hcit at 1.
    rewrite format_citation_not_empty. reflexivity.
  - intros title. rewrite Hcit. reflexivity.
Qed.

End CallerFacts.

Lemma retrieve_context_sources_witness :
  exists chunks sources,
    Agents.retrieve_context Scenario.embedding_up
      (Scenario.qdrant_up [Scenario.point "c1" (Some 3); Scenario.point "c2" (Some 3)])
      (Scenario.db_up [Scenario.row "c3" None])
      Agents.base_agent "grid code" = Ok (chunks, sources)
    /\ sources = ["[ERA p.3]"; "[ERA]"]
    /\ hybrid_retrieve Scenario.embedding_up
         (Scenario.qdrant_up [Scenario.point "c1" (Some 3); Scenario.point "c2" (Some 3)])
         (Scenario.db_up [Scenario.row "c3" None]) "grid code"
         (Agents.get_top_n Agents.base_agent) 15 15
         (Agents.get_retrieval_filters Agents.base_agent) = Ok chunks
    /\ NoDup sources
    /\ (forall s, In s sources <-> exists c, In c chunks /\ citation c = s)
    /\ (List.length sources <= List.length chunks)%nat.
Proof.
  eexists. eexists. split; [vm_compute; reflexivity|]. split; [reflexivity|].
  apply (retrieve_context_sources Scenario.embedding_up
           (Scenario.qdrant_up [Scenario.point "c1" (Some 3); Scenario.point "c2" (Some 3)])
           (Scenario.db_up [Scenario.row "c3" None]) Agents.base_agent "grid code").
  vm_compute. reflexivity.
Defined.

Lemma builder_cites_like_the_retriever_witness :
  exists results r,
    hybrid_retrieve Scenario.embedding_up
      (Scenario.qdrant_up [Scenario.point "c1" (Some 3)]) (Scenario.db_up [])
      "grid code" 8 15 15 None = Ok results
    /\ In r results
    /\ citation r = "[ERA p.3]"
    /\ Prompts._format_citation (Prompts.as_dict r) = citation r
    /\ (forall title,
          Prompts._format_citation
            {| Prompts.dict_citation := None;
               Prompts.dict_source := Some (source (chunk (fused r)));
               Prompts.dict_title := title;
               Prompts.dict_page := page (chunk (fused r)) |}
          = citation r).
Proof.
  eexists. eexists. split; [vm_compute; reflexivity|].
  split; [left; reflexivity|]. split; [reflexivity|].
  eapply (builder_cites_like_the_retriever Scenario.embedding_up
            (Scenario.qdrant_up [Scenario.point "c1" (Some 3)]) (Scenario.db_up [])
            "grid code" 8 15 15 None).
  - vm_compute. reflexivity.
  - left. reflexivity.
Defined.

Section FusedPages.

Variable fresh : RankedHit -> FusedChunk.
Variable seen : FusedChunk -> Z -> FusedChunk.
Variable P : FusedChunk -> Prop.

(** A property of the chunks that every new chunk has and that recording a
    rank keeps holds of the whole chunk dict after the loop. *)
Lemma fuse_loop_preserves (k : Z) (hits : list RankedHit) :
  (forall h, In h hits -> P (fresh h)) ->
  (forall c r, P c -> P (seen c r)) ->
  forall scores chunks scores' chunks',
    (forall id c, dict_get chunks id = Some c -> P c) ->
    fuse_loop fresh seen k hits scores chunks = Ok (scores', chunks') ->
    forall id c, dict_get chunks' id = Some c -> P c.
Proof.
  intros Hfresh Hseen.
  induction hits as [|hit rest IH]; intros scores chunks scores' chunks' Hold Hrun.
  - simpl in Hrun. injection Hrun as _ <-. exact Hold.
  - cbn [fuse_loop] in Hrun.
    destruct (reciprocal_rank k (rank hit)) as [s|e]; [|discriminate].
    cbn [bind] in Hrun.
    refine (IH (fun h Hh => Hfresh h (or_intror Hh)) _ _ _ _ _ Hrun).
    intros id c Hc.
    destruct (string_dec (hit_chunk_id hit) id) as [<- | Hne].
    + destruct (dict_get chunks (hit_chunk_id hit)) as [c0|] eqn:E;
        rewrite dict_get_set_same in Hc; injection Hc as <-.
      * apply Hseen. exact (Hold _ _ E).
      * apply Hfresh. left. reflexivity.
    + destruct (dict_get chunks (hit_chunk_id hit));
        rewrite dict_get_set_other in Hc by exact Hne; exact (Hold _ _ Hc).
Qed.

End FusedPages.

Lemma rrf_fusion_pages (semantic_hits keyword_hits : list RankedHit) (k : Z)
  (results : list FusedResult) :
  Forall (fun h => exists n, hit_page h = Some n /\ 1 <= n)
    (semantic_hits ++ keyword_hits) ->
  rrf_fusion semantic_hits keyword_hits k = Ok results ->
  Forall (fun r => has_page (chunk r)) results.
Proof.
  intros Hhits Hrun. apply Forall_app in Hhits. destruct Hhits as (Hs & Hk).
  rewrite Forall_forall in Hs, Hk.
  destruct (rrf_fusion_internals _ _ _ _ Hrun)
    as (s1 & c1 & s2 & c2 & H1 & H2 & _ & _ & Hall).
  rewrite fuse_semantic_is_loop in H1. rewrite fuse_keyword_is_loop in H2.
  assert (Hc1 : forall id c, dict_get c1 id = Some c -> has_page c).
  { apply (fuse_loop_preserves _ _ has_page k semantic_hits) with (4 := H1).
    - intros h Hh. exact (Hs h Hh).
    - intros c r Hc. exact Hc.
    - intros id c Hc. discriminate. }
  assert (Hc2 : forall id c, dict_get c2 id = Some c -> has_page c).
  { apply (fuse_loop_preserves _ _ has_page k keyword_hits) with (4 := H2).
    - intros h Hh. exact (Hk h Hh).
    - intros c r Hc. exact Hc.
    - exact Hc1. }
  eapply Forall_impl; [|exact Hall]. cbv beta. intros r (_ & Hc). exact (Hc2 _ _ Hc).
Qed.

Section PagesCited.

Variable get_embedding : string -> result (list Q).
Variable client_search : list Q -> Z -> option Filter -> result (list ScoredPoint).
Variable db_execute : Select -> result (list Row).

(** X20. If every point of the vector index and every row of the database
    carries a page number from 1 on, as every ingested chunk does, then
    every entry [hybrid_retrieve] returns has such a page number and its
    citation shows it: "[{source} p.{page}]". *)
Theorem stored_pages_are_cited
  (query : string) (top_n semantic_k keyword_k : Z) (filters : Filters)
  (results : list RetrievedChunk) (r : RetrievedChunk) :
  (forall v k f points, client_search v k f = Ok points ->
     Forall (fun p => exists n, payload_page (payload p) = Some n /\ 1 <= n) points) ->
  (forall stmt rows, db_execute stmt = Ok rows ->
     Forall (fun row => exists n, row_page row = Some n /\ 1 <= n) rows) ->
  hybrid_retrieve get_embedding client_search db_execute
    query top_n semantic_k keyword_k filters = Ok results ->
  In r results ->
  exists n,
    page (chunk (fused r)) = Some n /\ 1 <= n
    /\ citation r
       = ("[" ++ source (chunk (fused r)) ++ " p." ++ str_of_int n ++ "]")%string.
Proof.
  intros Hpoints Hrows Hrun Hr.
  destruct (hybrid_retrieve_returns _ _ _ _ _ _ _ _ _ Hrun)
    as (sh & kh & f & Hs & Hk & Hf & ->).
  assert (Hsh : Forall (fun h => exists n, hit_page h = Some n /\ 1 <= n) sh).
  { unfold semantic_search, search_similar in Hs.
    destruct (get_embedding query) as [v|e]; cbn [bind] in Hs; [|discriminate].
    destruct (client_search v semantic_k (qdrant_filter filters)) as [points|e] eqn:Hc;
      cbn [bind] in Hs; [|discriminate].
    injection Hs as <-. apply Forall_forall. intros h Hh.
    apply in_map_iff in Hh. destruct Hh as ([i hit] & <- & Hin).
    unfold enumerate in Hin. apply In_nth_error in Hin. destruct Hin as (n & Hn).
    rewrite nth_error_enumerate_from, nth_error_map in Hn.
    destruct (nth_error points n) as [p|] eqn:Hp; [|discriminate].
    cbn [option_map] in Hn. injection Hn as _ <-.
    pose proof (Hpoints _ _ _ _ Hc) as Hall. rewrite Forall_forall in Hall.
    exact (Hall p (nth_error_In _ _ Hp)). }
  assert (Hkh : Forall (fun h => exists n, hit_page h = Some n /\ 1 <= n) kh).
  { unfold keyword_search in Hk.
    destruct (db_execute _) as [rows|e] eqn:Hc; cbn [bind] in Hk; [|discriminate].
    injection Hk as <-. apply Forall_forall. intros h Hh.
    apply in_map_iff in Hh. destruct Hh as ([i row] & <- & Hin).
    unfold enumerate in Hin. apply In_nth_error in Hin. destruct Hin as (n & Hn).
    rewrite nth_error_enumerate_from in Hn.
    destruct (nth_error rows n) as [row'|] eqn:Hp; [|discriminate].
    cbn [option_map] in Hn. injection Hn as _ <-.
    pose proof (Hrows _ _ Hc) as Hall. rewrite Forall_forall in Hall.
    exact (Hall row' (nth_error_In _ _ Hp)). }
  pose proof (rrf_fusion_pages sh kh 60 f (proj2 (Forall_app _ _ _) (conj Hsh Hkh)) Hf)
    as Hpages.
  apply in_map_iff in Hr. destruct Hr as (fr & <- & Hfr).
  rewrite Forall_forall in Hpages.
  destruct (Hpages fr (slice_to_incl _ _ _ Hfr)) as (n & Hn & Hn1).
  exists n. cbn [fused citation enrich]. split; [exact Hn|]. split; [exact Hn1|].
  unfold format_citation. rewrite Hn.
  assert (E : (n =? 0) = false) by (apply Z.eqb_neq; lia).
  rewrite E. reflexivity.
Qed.

End PagesCited.

Lemma stored_pages_are_cited_witness :
  exists results r n,
    hybrid_retrieve Scenario.embedding_up
      (Scenario.qdrant_up [Scenario.point "c1" (Some 3)])
      (Scenario.db_up [Scenario.row "c2" (Some 1)])
      "grid code" 8 15 15 None = Ok results
    /\ In r results
    /\ page (chunk (fused r)) = Some n /\ 1 <= n
    /\ citation r
       = ("[" ++ source (chunk (fused r)) ++ " p." ++ str_of_int n ++ "]")%string.
Proof.
  eexists. eexists.
  assert (Hrun : hybrid_retrieve Scenario.embedding_up
            (Scenario.qdrant_up [Scenario.point "c1" (Some 3)])
            (Scenario.db_up [Scenario.row "c2" (Some 1)])
            "grid code" 8 15 15 None
          = Ok (map enrich
                  [ {| chunk := chunk_of_hit
                                  (ranked_semantic
                                     (0, hit_of_point (Scenario.point "c1" (Some 3))))
                                  (Some 1) None;
                       rrf_score := 1 # 61 |};
                    {| chunk := chunk_of_hit
                                  (ranked_keyword (0, Scenario.row "c2" (Some 1)))
                                  None (Some 1);
                       rrf_score := 1 # 61 |} ]))
    by (vm_compute; reflexivity).
  destruct (stored_pages_are_cited Scenario.embedding_up
              (Scenario.qdrant_up [Scenario.point "c1" (Some 3)])
              (Scenario.db_up [Scenario.row "c2" (Some 1)])
              "grid code" 8 15 15 None _ _
              ltac:(intros v k f points H; injection H as <-;
                    repeat constructor; exists 3; split; [reflexivity | lia])
              ltac:(intros stmt rows H; injection H as <-;
                    repeat constructor; exists 1; split; [reflexivity | lia])
              Hrun (or_introl eq_refl)) as (n & H).
  exists n. split; [exact Hrun|]. split; [left; reflexivity | exact H].
Defined.

(* ====================================================================== *)
(** ** The vector store: upserts and start-up *)
(* ====================================================================== *)

Lemma nth_error_combine_both {A B : Type} (l : list A) :
  forall (l' : list B) (i : nat) (a : A) (b : B),
    nth_error l i = Some a -> nth_error l' i = Some b ->
    nth_error (combine l l') i = Some (a, b).
Proof.
  induction l as [|x l IH]; intros [|y l'] [|i] a b Ha Hb; try discriminate.
  - simpl in *. congruence.
  - simpl in *. apply IH; assumption.
Qed.

(** X21. [upsert_chunks] hands the client one point per pair of a chunk
    and an embedding, in order, so chunks beyond the embeddings (or
    embeddings beyond the chunks) are dropped without an error; and what a
    search later reports of such a point is the chunk that was stored: its
    id, text, page, document id and chunk index, and its source, or "" if it
    had none. *)
Theorem upsert_then_search_round_trip
  (client_upsert : list QdrantStore.PointStruct -> result unit)
  (chunks : list Ingest.StoredChunk) (embeddings : list (list Q)) :
  exists points,
    QdrantStore.upsert_chunks client_upsert chunks embeddings = client_upsert points
    /\ List.length points = Nat.min (List.length chunks) (List.length embeddings)
    /\ (forall i c e score,
          nth_error chunks i = Some c -> nth_error embeddings i = Some e ->
          exists p,
            nth_error points i = Some p
            /\ QdrantStore.struct_vector p = e
            /\ hit_of_point (QdrantStore.scored p score)
               = {| found_chunk_id := Ingest.stored_chunk_id c;
                    found_score := score;
                    found_text := Ingest.stored_text c;
                    found_source := or_default (Ingest.stored_source c) "";
                    found_page := Ingest.stored_page c;
                    found_document_id := Some (Ingest.stored_document_id c);
                    found_chunk_index := Some (Ingest.stored_chunk_index c) |}).
Proof.
  exists (map QdrantStore.point_of (combine chunks embeddings)).
  split; [reflexivity|]. split.
  - rewrite length_map. apply length_combine.
  - intros i c e score Hc He. exists (QdrantStore.point_of (c, e)).
    rewrite nth_error_map, (nth_error_combine_both _ _ _ _ _ Hc He).
    repeat split.
Qed.

Lemma times_app (e : QdrantStore.event) (l1 l2 : list QdrantStore.event) :
  QdrantStore.times e (l1 ++ l2) = QdrantStore.times e l1 + QdrantStore.times e l2.
Proof.
  unfold QdrantStore.times, llen. rewrite filter_app, length_app. lia.
Qed.

Section StartupFacts.

Variable get_collection : Z -> option QdrantStore.error.
Variable create_collection : Z -> option QdrantStore.error.

(** One attempt asks for the collection once, creates it at most once, and
    neither sleeps nor resets the client. *)
Lemma attempt_once_events (attempt : Z) :
  QdrantStore.times QdrantStore.GetCollection
    (fst (QdrantStore.attempt_once get_collection create_collection attempt)) = 1
  /\ QdrantStore.times QdrantStore.Sleep
       (fst (QdrantStore.attempt_once get_collection create_collection attempt)) = 0
  /\ QdrantStore.times QdrantStore.ResetClient
       (fst (QdrantStore.attempt_once get_collection create_collection attempt)) = 0.
Proof.
  unfold QdrantStore.attempt_once.
  destruct (get_collection attempt) as [[| | | |]|]; repeat split.
Qed.

Lemma ensure_from_all_fail (max_retries : Z) (remaining : nat) :
  forall attempt,
    (0 < remaining)%nat ->
    Z.of_nat remaining = max_retries - attempt + 1 ->
    (forall a, attempt <= a <= max_retries ->
               snd (QdrantStore.attempt_once get_collection create_collection a)
               <> None) ->
    exists trace e,
      QdrantStore.ensure_from get_collection create_collection max_retries attempt
        remaining = (trace, QdrantStore.Raised e)
      /\ snd (QdrantStore.attempt_once get_collection create_collection max_retries)
         = Some e
      /\ QdrantStore.times QdrantStore.GetCollection trace = Z.of_nat remaining
      /\ QdrantStore.times QdrantStore.Sleep trace = Z.of_nat remaining - 1
      /\ QdrantStore.times QdrantStore.ResetClient trace = Z.of_nat remaining - 1.
Proof.
  induction remaining as [|remaining IH]; intros attempt Hpos Hrem Hfail; [lia|].
  cbn [QdrantStore.ensure_from]. rewrite Nat2Z.inj_succ in *.
  destruct (attempt_once_events attempt) as (Hget & Hsleep & Hreset).
  pose proof (Hfail attempt ltac:(lia)) as Hthis.
  destruct (QdrantStore.attempt_once get_collection create_collection attempt)
    as [events [e|]] eqn:Hatt; cbn [fst snd] in *; [|congruence].
  destruct (attempt <? max_retries) eqn:Hlast.
  - apply Z.ltb_lt in Hlast.
    destruct (IH (attempt + 1)) as (trace & e' & Hrun & He' & Hg & Hs & Hr);
      [lia | lia | intros a Ha; apply Hfail; lia |].
    rewrite Hrun. exists (events ++ [QdrantStore.ResetClient; QdrantStore.Sleep] ++ trace), e'.
    split; [reflexivity|]. split; [exact He'|].
    rewrite !times_app, Hget, Hsleep, Hreset, Hg, Hs, Hr.
    change (QdrantStore.times QdrantStore.GetCollection
              [QdrantStore.ResetClient; QdrantStore.Sleep]) with 0.
    change (QdrantStore.times QdrantStore.Sleep
              [QdrantStore.ResetClient; QdrantStore.Sleep]) with 1.
    change (QdrantStore.times QdrantStore.ResetClient
              [QdrantStore.ResetClient; QdrantStore.Sleep]) with 1.
    lia.
  - apply Z.ltb_ge in Hlast. assert (attempt = max_retries) by lia. subst attempt.
    exists events, e. rewrite Hatt. cbn [snd]. split; [reflexivity|].
    split; [reflexivity|]. rewrite Hget, Hsleep, Hreset. lia.
Qed.

Lemma ensure_from_first_success (max_retries first : Z) (remaining : nat) :
  forall attempt,
    Z.of_nat remaining = max_retries - attempt + 1 ->
    attempt <= first <= max_retries ->
    snd (QdrantStore.attempt_once get_collection create_collection first) = None ->
    (forall a, attempt <= a < first ->
               snd (QdrantStore.attempt_once get_collection create_collection a)
               <> None) ->
    exists trace,
      QdrantStore.ensure_from get_collection create_collection max_retries attempt
        remaining = (trace, QdrantStore.Returned)
      /\ QdrantStore.times QdrantStore.GetCollection trace = first - attempt + 1
      /\ QdrantStore.times QdrantStore.Sleep trace = first - attempt
      /\ QdrantStore.times QdrantStore.ResetClient trace = first - attempt.
Proof.
  induction remaining as [|remaining IH]; intros attempt Hrem Hrange Hok Hfail; [lia|].
  cbn [QdrantStore.ensure_from]. rewrite Nat2Z.inj_succ in *.
  destruct (attempt_once_events attempt) as (Hget & Hsleep & Hreset).
  destruct (Z.eq_dec attempt first) as [-> | Hne].
  - destruct (QdrantStore.attempt_once get_collection create_collection first)
      as [events [e|]] eqn:Hatt; cbn [fst snd] in *; [discriminate|].
    exists events. split; [reflexivity|]. rewrite Hget, Hsleep, Hreset. lia.
  - pose proof (Hfail attempt ltac:(lia)) as Hthis.
    destruct (QdrantStore.attempt_once get_collection create_collection attempt)
      as [events [e|]] eqn:Hatt; cbn [fst snd] in *; [|congruence].
    assert (Hlast : (attempt <? max_retries) = true) by (apply Z.ltb_lt; lia).
    rewrite Hlast.
    destruct (IH (attempt + 1)) as (trace & Hrun & Hg & Hs & Hr);
      [lia | lia | exact Hok | intros a Ha; apply Hfail; lia |].
    rewrite Hrun.
    exists (events ++ [QdrantStore.ResetClient; QdrantStore.Sleep] ++ trace).
    split; [reflexivity|].
    rewrite !times_app, Hget, Hsleep, Hreset, Hg, Hs, Hr.
    change (QdrantStore.times QdrantStore.GetCollection
              [QdrantStore.ResetClient; QdrantStore.Sleep]) with 0.
    change (QdrantStore.times QdrantStore.Sleep
              [QdrantStore.ResetClient; QdrantStore.Sleep]) with 1.
    change (QdrantStore.times QdrantStore.ResetClient
              [QdrantStore.ResetClient; QdrantStore.Sleep]) with 1.
    lia.
Qed.

(** X22. [ensure_collection] gives up after [max_retries] attempts: if
    every attempt fails it raises the error of the last one, having asked
    for the collection [max_retries] times and slept and reset the client
    [max_retries - 1] times. With [max_retries <= 0] it makes no attempt at
    all and returns as if the collection were there. *)
Theorem ensure_collection_gives_up (max_retries : Z) :
  (max_retries <= 0 ->
   QdrantStore.ensure_collection get_collection create_collection max_retries
   = ([], QdrantStore.Returned))
  /\ (0 < max_retries ->
      (forall a, 1 <= a <= max_retries ->
                 snd (QdrantStore.attempt_once get_collection create_collection a)
                 <> None) ->
      exists trace e,
        QdrantStore.ensure_collection get_collection create_collection max_retries
        = (trace, QdrantStore.Raised e)
        /\ snd (QdrantStore.attempt_once get_collection create_collection max_retries)
           = Some e
        /\ QdrantStore.times QdrantStore.GetCollection trace = max_retries
        /\ QdrantStore.times QdrantStore.Sleep trace = max_retries - 1
        /\ QdrantStore.times QdrantStore.ResetClient trace = max_retries - 1).
Proof.
  unfold QdrantStore.ensure_collection. split.
  - intros Hle. replace (Z.to_nat max_retries) with 0%nat by lia. reflexivity.
  - intros Hpos Hfail.
    destruct (ensure_from_all_fail max_retries (Z.to_nat max_retries) 1)
      as (trace & e & Hrun & He & Hg & Hs & Hr); [lia | lia | exact Hfail |].
    exists trace, e. rewrite Z2Nat.id in * by lia. auto.
Qed.

(** X23. [ensure_collection] stops at the first attempt that succeeds (the
    collection is there, or is missing and gets created): it returns after
    asking for the collection once per attempt made, and after sleeping and
    resetting the client once per failed attempt before it. *)
Theorem ensure_collection_stops_at_first_success (max_retries first : Z) :
  1 <= first <= max_retries ->
  snd (QdrantStore.attempt_once get_collection create_collection first) = None ->
  (forall a, 1 <= a < first ->
             snd (QdrantStore.attempt_once get_collection create_collection a)
             <> None) ->
  exists trace,
    QdrantStore.ensure_collection get_collection create_collection max_retries
    = (trace, QdrantStore.Returned)
    /\ QdrantStore.times QdrantStore.GetCollection trace = first
    /\ QdrantStore.times QdrantStore.Sleep trace = first - 1
    /\ QdrantStore.times QdrantStore.ResetClient trace = first - 1.
Proof.
  intros Hrange Hok Hfail. unfold QdrantStore.ensure_collection.
  destruct (ensure_from_first_success max_retries first (Z.to_nat max_retries) 1)
    as (trace & Hrun & Hg & Hs & Hr); [lia | lia | exact Hok | exact Hfail |].
  exists trace. split; [exact Hrun|]. repeat split; lia.
Qed.

End StartupFacts.

Lemma ensure_collection_gives_up_witness :
  exists trace e,
    QdrantStore.ensure_collection (fun _ => Some QdrantStore.ConnectionError)
      (fun _ => None) 3 = (trace, QdrantStore.Raised e)
    /\ snd (QdrantStore.attempt_once (fun _ => Some QdrantStore.ConnectionError)
              (fun _ => None) 3) = Some e
    /\ QdrantStore.times QdrantStore.GetCollection trace = 3
    /\ QdrantStore.times QdrantStore.Sleep trace = 3 - 1
    /\ QdrantStore.times QdrantStore.ResetClient trace = 3 - 1.
Proof.
  apply (proj2 (ensure_collection_gives_up (fun _ => Some QdrantStore.ConnectionError)
                  (fun _ => None) 3)).
  - lia.
  - intros a _. discriminate.
Defined.

Lemma ensure_collection_stops_at_first_success_witness :
  exists trace,
    QdrantStore.ensure_collection
      (fun a => if a <? 3 then Some QdrantStore.ConnectionError
                else Some QdrantStore.UnexpectedResponse)
      (fun _ => None) 10 = (trace, QdrantStore.Returned)
    /\ QdrantStore.times QdrantStore.GetCollection trace = 3
    /\ QdrantStore.times QdrantStore.Sleep trace = 3 - 1
    /\ QdrantStore.times QdrantStore.ResetClient trace = 3 - 1.
Proof.
  apply (ensure_collection_stops_at_first_success
           (fun a => if a <? 3 then Some QdrantStore.ConnectionError
                     else Some QdrantStore.UnexpectedResponse)
           (fun _ => None) 10 3).
  - lia.
  - reflexivity.
  - intros a Ha. unfold QdrantStore.attempt_once.
    assert (E : (a <? 3) = true) by (apply Z.ltb_lt; lia).
    rewrite E. discriminate.
Defined.

(* ====================================================================== *)
(** ** The size of chunks *)
(* ====================================================================== *)

Lemma split_from_space (a : string) :
  forall word b,
    split_from word (a ++ String " " b)%string = split_from word a ++ split b.
Proof.
  induction a as [|c a IH]; intros word b.
  - cbn [append split_from]. replace (is_space " ") with true by reflexivity.
    unfold split. destruct (is_empty word); reflexivity.
  - cbn [append split_from]. destruct (is_space c).
    + destruct (is_empty word); rewrite IH; reflexivity.
    + apply IH.
Qed.

Lemma split_join_units (units : list string) :
  llen (split (join units)) = word_total units.
Proof.
  induction units as [|u rest IH]; [reflexivity|].
  destruct rest as [|u2 rest].
  - unfold join. simpl. lia.
  - rewrite join_cons by discriminate. unfold split at 1.
    rewrite split_from_space. fold (split u).
    unfold llen at 1. rewrite length_app, Nat2Z.inj_add.
    fold (llen (split u)). fold (llen (split (join (u2 :: rest)))).
    rewrite IH. reflexivity.
Qed.

Lemma tokens_cover_words (u : string) : llen (split u) <= count_tokens None u.
Proof.
  unfold count_tokens. pose proof (llen_nonneg (split u)).
  apply Z.div_le_lower_bound; lia.
Qed.

Lemma word_total_le_token_total (units : list string) :
  word_total units <= token_total units.
Proof.
  induction units as [|u rest IH]; [reflexivity|].
  change (word_total (u :: rest)) with (llen (split u) + word_total rest).
  change (token_total (u :: rest)) with (count_tokens None u + token_total rest).
  pose proof (tokens_cover_words u). lia.
Qed.

Lemma token_total_nil : token_total [] = 0.
Proof. reflexivity. Qed.

Lemma token_total_cons (u : string) (rest : list string) :
  token_total (u :: rest) = count_tokens None u + token_total rest.
Proof. reflexivity. Qed.

Lemma token_total_app (l1 l2 : list string) :
  token_total (l1 ++ l2) = token_total l1 + token_total l2.
Proof.
  induction l1 as [|u rest IH]; [reflexivity|].
  cbn [app]. rewrite !token_total_cons, IH. lia.
Qed.

Lemma word_tokens_one (w : string) : is_word w -> count_tokens None w = 1.
Proof.
  intros Hw. unfold count_tokens. rewrite (split_word w Hw). reflexivity.
Qed.

Section ChunkSize.

Variable chunk_size : Z.
Variable chunk_overlap : Z.

Hypothesis size_positive : 1 <= chunk_size.

(** The overlap kept fits the overlap budget. *)
Lemma take_overlap_tokens (reversed_units : list string) :
  forall overlap_units overlap_tokens,
    overlap_tokens = token_total overlap_units ->
    snd (take_overlap None chunk_overlap reversed_units overlap_units overlap_tokens)
    = token_total
        (fst (take_overlap None chunk_overlap reversed_units overlap_units
                overlap_tokens))
    /\ snd (take_overlap None chunk_overlap reversed_units overlap_units overlap_tokens)
       <= Z.max overlap_tokens chunk_overlap.
Proof.
  induction reversed_units as [|u rest IH]; intros ov ot Hot; cbn [take_overlap].
  - cbn [fst snd]. split; [exact Hot | lia].
  - destruct (ot + count_tokens None u <=? chunk_overlap) eqn:E.
    + apply Z.leb_le in E.
      destruct (IH (u :: ov) (ot + count_tokens None u)) as (H1 & H2).
      { rewrite token_total_cons. lia. }
      split; [exact H1 | lia].
    + cbn [fst snd]. split; [exact Hot | lia].
Qed.

Lemma joined_within_budget (units : list string) (s e : Z) :
  token_total units <= chunk_size + Z.max 0 chunk_overlap ->
  within_budget chunk_size chunk_overlap (join units, s, e).
Proof.
  intros H. unfold within_budget, text_of. cbn [fst].
  rewrite split_join_units. pose proof (word_total_le_token_total units). lia.
Qed.

Lemma split_words_budget (char_pos : Z) (words : list string) :
  Forall (fun w => count_tokens None w <= chunk_size) words ->
  forall chunks word_chunk word_tokens word_start chunks' word_chunk' word_start',
    Forall (within_budget chunk_size chunk_overlap) chunks ->
    word_tokens = token_total word_chunk ->
    word_tokens <= chunk_size + Z.max 0 chunk_overlap ->
    split_words None chunk_size chunk_overlap char_pos words chunks word_chunk
      word_tokens word_start = (chunks', word_chunk', word_start') ->
    Forall (within_budget chunk_size chunk_overlap) chunks'
    /\ token_total word_chunk' <= chunk_size + Z.max 0 chunk_overlap.
Proof.
  induction words as [|word rest IH];
    intros Hwords chunks wc wt ws chunks' wc' ws' Hchunks Hwt Hbound Hrun.
  - simpl in Hrun. injection Hrun as <- <- _. split; [exact Hchunks | lia].
  - inversion Hwords as [|? ? Hword Hrest]; subst.
    cbn [split_words] in Hrun.
    destruct ((chunk_size <? token_total wc + count_tokens None word) && truthy wc)
      eqn:Hfull.
    + pose proof (take_overlap_tokens (rev wc) [] 0 eq_refl) as (Hot & Hle).
      destruct (take_overlap None chunk_overlap (rev wc) [] 0) as [ov ot].
      cbn [fst snd] in Hot, Hle.
      refine (IH Hrest _ _ _ _ _ _ _ _ _ _ Hrun).
      * apply Forall_app. split; [exact Hchunks|].
        constructor; [|constructor]. apply joined_within_budget. exact Hbound.
      * rewrite token_total_app, token_total_cons, token_total_nil. lia.
      * lia.
    + refine (IH Hrest _ _ _ _ _ _ _ Hchunks _ _ Hrun).
      * rewrite token_total_app, token_total_cons, token_total_nil. lia.
      * apply andb_false_iff in Hfull. destruct Hfull as [Hfit | Hempty].
        -- apply Z.ltb_ge in Hfit. lia.
        -- destruct wc; [rewrite token_total_nil; lia | discriminate].
Qed.

Lemma chunk_sentences_budget (sentences : list string) :
  forall chunks current_chunk current_tokens chunk_start char_pos,
    Forall (within_budget chunk_size chunk_overlap) chunks ->
    current_tokens = token_total current_chunk ->
    current_tokens <= chunk_size + Z.max 0 chunk_overlap ->
    Forall (within_budget chunk_size chunk_overlap)
      (chunk_sentences None chunk_size chunk_overlap sentences chunks current_chunk
         current_tokens chunk_start char_pos).
Proof.
  induction sentences as [|sentence rest IH];
    intros chunks cur ct cs cp Hchunks Hct Hbound.
  - cbn [chunk_sentences]. destruct (truthy cur); [|exact Hchunks].
    apply Forall_app. split; [exact Hchunks|].
    constructor; [|constructor]. apply joined_within_budget. lia.
  - assert (Hflush : Forall (within_budget chunk_size chunk_overlap)
                       (if truthy cur then chunks ++ [(join cur, cs, cp)] else chunks)).
    { destruct (truthy cur); [|exact Hchunks].
      apply Forall_app. split; [exact Hchunks|].
      constructor; [|constructor]. apply joined_within_budget. lia. }
    cbn [chunk_sentences].
    destruct (chunk_size <? count_tokens None sentence) eqn:Hlong.
    + destruct (split_words None chunk_size chunk_overlap cp (split sentence)
                  (if truthy cur then chunks ++ [(join cur, cs, cp)] else chunks)
                  [] 0 cp) as [[chunks1 wc] ws] eqn:Hsw.
      destruct (split_words_budget cp (split sentence)) with (5 := Hsw)
        as (Hchunks1 & Hwc).
      * eapply Forall_impl; [|apply (split_from_words sentence EmptyString eq_refl)].
        cbv beta. intros w Hw. rewrite (word_tokens_one w Hw). exact size_positive.
      * exact Hflush.
      * reflexivity.
      * lia.
      * apply IH; [|reflexivity | lia].
        destruct (truthy wc); [|exact Hchunks1].
        apply Forall_app. split; [exact Hchunks1|].
        constructor; [|constructor]. apply joined_within_budget. exact Hwc.
    + apply Z.ltb_ge in Hlong.
      destruct ((chunk_size <? ct + count_tokens None sentence) && truthy cur)
        eqn:Hfull.
      * apply andb_true_iff in Hfull. destruct Hfull as (_ & Htruthy).
        rewrite Htruthy in Hflush.
        pose proof (take_overlap_tokens (rev cur) [] 0 eq_refl) as (Hot & Hle).
        destruct (take_overlap None chunk_overlap (rev cur) [] 0) as [ov ot].
        cbn [fst snd] in Hot, Hle.
        apply IH; [exact Hflush | rewrite token_total_app, token_total_cons, token_total_nil; lia | lia].
      * apply IH; [exact Hchunks | rewrite token_total_app, token_total_cons, token_total_nil; lia |].
        apply andb_false_iff in Hfull. destruct Hfull as [Hfit | Hempty].
        -- apply Z.ltb_ge in Hfit. lia.
        -- destruct cur; [rewrite token_total_nil in Hct; lia | discriminate].
Qed.

(** X24. Without tiktoken and with [chunk_size >= 1], no chunk of
    [chunk_text] has more than [chunk_size + max(0, chunk_overlap)] words,
    so none has more than [4 * (chunk_size + max(0, chunk_overlap)) / 3]
    tokens as [count_tokens] counts them. *)
Theorem chunk_text_size_bound (text : string) :
  Forall (fun c =>
            llen (split (text_of c)) <= chunk_size + Z.max 0 chunk_overlap
            /\ count_tokens None (text_of c)
               <= 4 * (chunk_size + Z.max 0 chunk_overlap) / 3)
    (chunk_text None text chunk_size chunk_overlap).
Proof.
  assert (H : Forall (within_budget chunk_size chunk_overlap) (chunk_text None text chunk_size chunk_overlap)).
  { unfold chunk_text. destruct (is_empty (strip text)); [constructor|].
    apply chunk_sentences_budget; [constructor | reflexivity | lia]. }
  eapply Forall_impl; [|exact H]. cbv beta. unfold within_budget.
  intros c Hc. split; [exact Hc|].
  unfold count_tokens. apply Z.div_le_mono; lia.
Qed.

End ChunkSize.

Lemma chunk_text_size_bound_witness :
  Forall (fun c =>
            llen (split (text_of c)) <= 2 + Z.max 0 1
            /\ count_tokens None (text_of c) <= 4 * (2 + Z.max 0 1) / 3)
    (chunk_text None "a b c d e. f g" 2 1).
Proof.
  apply (chunk_text_size_bound 2 1). lia.
Defined.

(* ====================================================================== *)
(** ** Text extraction and the pages of ingested chunks *)
(* ====================================================================== *)

Lemma len_append (a b : string) : len (a ++ b) = len a + len b.
Proof.
  unfold len. induction a as [|c a IH]; cbn [append String.length].
  - lia.
  - rewrite !Nat2Z.inj_succ. lia.
Qed.

Lemma page_starts_empty : page_starts "" [].
Proof. repeat split; constructor. Qed.

Lemma page_starts_next (full_text longer : string) (page_breaks : list Z) :
  page_starts full_text page_breaks ->
  len full_text <= len longer ->
  page_starts longer (page_breaks ++ [len full_text]).
Proof.
  intros (Hsorted & Hin & Hempty & Hhead) Hlen.
  pose proof (len_nonneg full_text) as Hpos.
  repeat split.
  - apply strongly_sorted_snoc; [exact Hsorted|].
    eapply Forall_impl; [|exact Hin]. cbv beta. intros b Hb. lia.
  - apply Forall_app. split.
    + eapply Forall_impl; [|exact Hin]. cbv beta. intros b Hb. lia.
    + constructor; [lia | constructor].
  - intros H. destruct page_breaks; discriminate H.
  - destruct page_breaks as [|b rest]; [|exact Hhead].
    rewrite (Hempty eq_refl). reflexivity.
Qed.

Lemma read_pages_starts (pages : list Ingest.page_read) :
  forall full_text page_breaks,
    page_starts full_text page_breaks ->
    page_starts (fst (Ingest.read_pages pages full_text page_breaks))
      (snd (Ingest.read_pages pages full_text page_breaks)).
Proof.
  induction pages as [|page rest IH]; intros full_text page_breaks H.
  - exact H.
  - destruct page as [|page_text]; cbn [Ingest.read_pages fst snd].
    + apply (page_starts_next full_text); [exact H | lia].
    + apply IH. apply (page_starts_next full_text); [exact H|].
      rewrite len_append.
      pose proof (len_nonneg (Ingest.text_or_empty page_text ++ Ingest.page_separator)).
      lia.
Qed.

Lemma ocr_pages_starts (pages : list Ingest.ocr_read) :
  forall full_text page_breaks full_text' page_breaks',
    page_starts full_text page_breaks ->
    Ingest.ocr_pages pages full_text page_breaks = Some (full_text', page_breaks') ->
    page_starts full_text' page_breaks'.
Proof.
  induction pages as [|page rest IH]; intros full_text page_breaks ft' pb' H Hrun.
  - cbn [Ingest.ocr_pages] in Hrun. congruence.
  - destruct page as [| |page_text]; cbn [Ingest.ocr_pages] in Hrun.
    + discriminate.
    + refine (IH _ _ _ _ _ Hrun). apply (page_starts_next full_text); [exact H | lia].
    + refine (IH _ _ _ _ _ Hrun). apply (page_starts_next full_text); [exact H|].
      rewrite len_append.
      pose proof (len_nonneg (Ingest.text_or_empty page_text ++ Ingest.page_separator)).
      lia.
Qed.

Lemma attempt_starts (reader : option (list Ingest.page_read)) :
  page_starts (fst (Ingest.attempt reader)) (snd (Ingest.attempt reader)).
Proof.
  destruct reader as [pages|]; cbn [Ingest.attempt].
  - apply read_pages_starts, page_starts_empty.
  - exact page_starts_empty.
Qed.

(** What [extract_pdf_text] returns is the stripped form of a text whose
    page breaks were written while it was built. *)
Lemma extract_pdf_text_starts (pypdf pdfplumber : option (list Ingest.page_read))
  (ocr : option (list Ingest.ocr_read)) (text : string) (page_breaks : list Z) :
  Ingest.extract_pdf_text pypdf pdfplumber ocr = Some (text, page_breaks) ->
  exists full_text, text = strip full_text /\ page_starts full_text page_breaks.
Proof.
  unfold Ingest.extract_pdf_text.
  pose proof (attempt_starts pypdf) as H1.
  destruct (Ingest.attempt pypdf) as [ft1 pb1]. cbn [fst snd] in H1.
  pose proof (attempt_starts pdfplumber) as H2.
  destruct (Ingest.attempt pdfplumber) as [ft2 pb2]. cbn [fst snd] in H2.
  assert (H3 : forall ft pb, page_starts ft pb ->
            (if len (strip ft) <? 100
             then match ocr with
                  | Some pages =>
                      match Ingest.ocr_pages pages "" [] with
                      | Some (full_text, page_breaks) =>
                          Some (strip full_text, page_breaks)
                      | None => None
                      end
                  | None => None
                  end
             else Some (strip ft, pb)) = Some (text, page_breaks) ->
            exists full_text, text = strip full_text /\ page_starts full_text page_breaks).
  { intros ft pb H Hrun. destruct (len (strip ft) <? 100).
    - destruct ocr as [pages|]; [|discriminate].
      destruct (Ingest.ocr_pages pages "" []) as [[ft3 pb3]|] eqn:Hocr; [|discriminate].
      assert (text = strip ft3) by congruence.
      assert (page_breaks = pb3) by congruence. subst.
      exists ft3. split; [reflexivity|].
      exact (ocr_pages_starts pages _ _ _ _ page_starts_empty Hocr).
    - assert (text = strip ft) by congruence.
      assert (page_breaks = pb) by congruence. subst.
      exists ft. split; [reflexivity | exact H]. }
  destruct (len (strip ft1) <? 100).
  - apply H3. exact H2.
  - apply H3. exact H1.
Qed.

Lemma page_starts_from_zero (full_text : string) (page_breaks : list Z) :
  page_starts full_text page_breaks ->
  strip full_text <> ""%string ->
  exists later, page_breaks = 0 :: later.
Proof.
  intros (_ & _ & Hempty & Hhead) Htext.
  destruct page_breaks as [|b later].
  - rewrite (Hempty eq_refl) in Htext. exfalso. apply Htext. reflexivity.
  - exists later. cbn [hd] in Hhead. rewrite Hhead. reflexivity.
Qed.

(** X25. The page breaks [extract_pdf_text] returns are in ascending order
    and none is negative; when the text it returns is not empty there is at
    least one break and the first one is 0. *)
Theorem extract_pdf_text_page_breaks (pypdf pdfplumber : option (list Ingest.page_read))
  (ocr : option (list Ingest.ocr_read)) (text : string) (page_breaks : list Z) :
  Ingest.extract_pdf_text pypdf pdfplumber ocr = Some (text, page_breaks) ->
  StronglySorted Z.le page_breaks
  /\ Forall (fun b => 0 <= b) page_breaks
  /\ (text <> ""%string -> exists later, page_breaks = 0 :: later).
Proof.
  intros Hrun.
  destruct (extract_pdf_text_starts _ _ _ _ _ Hrun) as (full_text & -> & Hstarts).
  split; [apply Hstarts|]. split.
  - destruct Hstarts as (_ & Hin & _).
    eapply Forall_impl; [|exact Hin]. cbv beta. intros b Hb. lia.
  - apply page_starts_from_zero. exact Hstarts.
Qed.

Lemma extract_pdf_text_page_breaks_witness :
  StronglySorted Z.le [0; 14; 14]
  /\ Forall (fun b => 0 <= b) [0; 14; 14]
  /\ (("scanned page" ++ Ingest.page_separator ++ "end")%string <> ""%string ->
      exists later, [0; 14; 14] = 0 :: later).
Proof.
  apply (extract_pdf_text_page_breaks None None
           (Some [Ingest.OcrText (Some "scanned page"); Ingest.OcrNoImages;
                  Ingest.OcrText (Some "end")])).
  vm_compute. reflexivity.
Defined.

Lemma chunk_text_starts_nonneg (TOKENIZER : option (string -> Z)) (text : string)
  (chunk_size chunk_overlap : Z) :
  Forall (fun c => 0 <= start_of c) (chunk_text TOKENIZER text chunk_size chunk_overlap).
Proof.
  unfold chunk_text. destruct (is_empty (strip text)); [constructor|].
  destruct (chunk_sentences_offsets TOKENIZER chunk_size chunk_overlap
              (split_sentences (strip text)) [] [] 0 0 0) as (bound & Hwf & _).
  - repeat split; constructor.
  - lia.
  - reflexivity.
  - eapply Forall_impl; [|exact Hwf]. cbv beta. intros c Hc. lia.
Qed.

(** X26. Ingestion of a PDF, from extraction to the chunk records: when
    [extract_pdf_text] returns a text that passes the check
    [if not full_text.strip()], every record built from the chunks of that
    text carries a page number, which is the number of page breaks at or
    before the start offset of its chunk and lies between 1 and the number
    of breaks. *)
Theorem ingested_pdf_chunks_are_paged
  (uuid4 : Z -> string) (TOKENIZER : option (string -> Z))
  (pypdf pdfplumber : option (list Ingest.page_read))
  (ocr : option (list Ingest.ocr_read))
  (full_text : string) (page_breaks : list Z) (document_id source_ref : string) :
  Ingest.extract_pdf_text pypdf pdfplumber ocr = Some (full_text, page_breaks) ->
  is_empty (strip full_text) = false ->
  forall i rec,
    nth_error (Ingest.qdrant_chunks uuid4 document_id source_ref page_breaks
                 (chunk_text TOKENIZER full_text 600 100)) i = Some rec ->
    exists c,
      nth_error (chunk_text TOKENIZER full_text 600 100) i = Some c
      /\ Ingest.stored_page rec
         = Some (llen (filter (fun b => b <=? start_of c) page_breaks))
      /\ 1 <= llen (filter (fun b => b <=? start_of c) page_breaks) <= llen page_breaks.
Proof.
  intros Hrun Htext i rec Hrec.
  destruct (extract_pdf_text_starts _ _ _ _ _ Hrun) as (raw & Hraw & Hstarts).
  assert (Hne : strip raw <> ""%string).
  { intros E. rewrite <- Hraw in E. rewrite E in Htext. discriminate Htext. }
  destruct (page_starts_from_zero _ _ Hstarts Hne) as (later & Hbreaks).
  destruct Hstarts as (Hsorted & _).
  pose proof (chunk_text_starts_nonneg TOKENIZER full_text 600 100) as Hstart.
  set (chunks := chunk_text TOKENIZER full_text 600 100) in *.
  unfold Ingest.qdrant_chunks, enumerate in Hrec.
  rewrite nth_error_map, nth_error_enumerate_from in Hrec.
  destruct (nth_error chunks i) as [c|] eqn:Hc; [|discriminate].
  cbn [option_map] in Hrec. injection Hrec as <-.
  rewrite Forall_forall in Hstart.
  pose proof (Hstart c (nth_error_In _ _ Hc)) as Hc0.
  exists c. split; [reflexivity|].
  destruct c as [[t s] e]. unfold start_of in *. cbn [fst snd] in *.
  cbn [Ingest.chunk_record Ingest.stored_page].
  unfold Ingest.determine_page.
  pose proof (first_break_past_counts s page_breaks Hsorted 0) as Hcount.
  pose proof (filter_length_le (fun b => b <=? s) page_breaks) as Hle.
  subst page_breaks. cbn [truthy].
  assert (Hone : 1 <= llen (filter (fun b => b <=? s) (0 :: later))).
  { cbn [filter]. assert (E : (0 <=? s) = true) by (apply Z.leb_le; exact Hc0).
    rewrite E. rewrite llen_cons. pose proof (llen_nonneg (filter (fun b => b <=? s) later)).
    lia. }
  unfold llen in *.
  destruct (Ingest.first_break_past s 0 (0 :: later)) as [j|].
  - split; [f_equal; lia | lia].
  - split; [f_equal; lia | lia].
Qed.

Lemma ingested_pdf_chunks_are_paged_witness :
  exists rec c,
    nth_error
      (Ingest.qdrant_chunks (fun idx => str_of_int idx) "doc-7" "uetcl - Plan" [0; 14; 14]
         (chunk_text None ("scanned page" ++ Ingest.page_separator ++ "end") 600 100))
      0 = Some rec
    /\ nth_error
         (chunk_text None ("scanned page" ++ Ingest.page_separator ++ "end") 600 100) 0
       = Some c
    /\ Ingest.stored_page rec
       = Some (llen (filter (fun b => b <=? start_of c) [0; 14; 14]))
    /\ 1 <= llen (filter (fun b => b <=? start_of c) [0; 14; 14]) <= llen [0; 14; 14].
Proof.
  destruct (nth_error
              (Ingest.qdrant_chunks (fun idx => str_of_int idx) "doc-7" "uetcl - Plan"
                 [0; 14; 14]
                 (chunk_text None ("scanned page" ++ Ingest.page_separator ++ "end")
                    600 100)) 0) as [rec|] eqn:Hrec.
  - destruct (ingested_pdf_chunks_are_paged (fun idx => str_of_int idx) None None None
                (Some [Ingest.OcrText (Some "scanned page"); Ingest.OcrNoImages;
                       Ingest.OcrText (Some "end")])
                ("scanned page" ++ Ingest.page_separator ++ "end") [0; 14; 14]
                "doc-7" "uetcl - Plan" eq_refl eq_refl 0%nat rec Hrec)
      as (c & Hc & Hpage & Hbounds).
    exists rec, c. repeat split; try assumption; apply Hbounds.
  - vm_compute in Hrec. discriminate Hrec.
Defined.
